(** * GTFS calendar explorer: calendar resolution, trip projection, validation

    A shallow embedding of [utils/calendarService.ts] and
    [utils/gtfsValidator.ts] together with the part of the date-fns library
    these two files call, of the CSV reader of [utils/gtfsParser.ts] and of
    the groupings made by the components [CalendarList] and [TripsList],
    followed by the properties of the calendar resolver, the trip projector,
    the uniqueness validator, the date-range helpers, the CSV reader and the
    groupings. *)

From Stdlib Require Import ZArith String Ascii List Lia DecimalString.
From stdpp Require Import base option list strings gmap.

Local Open Scope string_scope.
Local Open Scope Z_scope.

(** ** The date library

    [calendarService.ts] imports [parse], [format], [getDay],
    [isWithinInterval] and [eachDayOfInterval] from date-fns.  The module
    below models what these five functions do on a JavaScript [Date], for
    the two format strings the program uses, after the sources of
    date-fns 3 and 4 (where [isWithinInterval] and [eachDayOfInterval]
    order the two ends of the interval themselves instead of raising
    [RangeError] as date-fns 2 did).

    A [Date] is its time value: a number of milliseconds, or NaN for an
    "Invalid Date".  Time values are counted on the local time line (a zone
    with a fixed offset), so that local midnight of day [n] after
    1970-01-01 is [n * msPerDay]; the limit of 8.64e15 ms that JavaScript
    puts on time values is not modelled.  A text is the list of the bytes
    of its UTF-8 encoding. *)

Module DateFns.

Inductive Date : Type :=
| InvalidDate
| Time (t : Z).

#[export] Instance Date_eq_dec : EqDecision Date.
Proof. solve_decision. Defined.

Definition msPerDay : Z := 86400000.

(** [+date]: the time value, [None] for NaN. *)
Definition valueOf (d : Date) : option Z :=
  match d with
  | InvalidDate => None
  | Time t => Some t
  end.

(** The relational operators of JavaScript on two dates: both compare the
    time values, and every comparison with NaN is false. *)
Definition date_lt (a b : Date) : bool :=
  match a, b with
  | Time x, Time y => x <? y
  | _, _ => false
  end.

Definition date_gt (a b : Date) : bool := date_lt b a.

Definition date_le (a b : Date) : bool :=
  match a, b with
  | Time x, Time y => x <=? y
  | _, _ => false
  end.

(** *** Civil calendar arithmetic (proleptic Gregorian calendar) *)

Definition isLeapYearIndex (year : Z) : bool :=
  (year mod 400 =? 0) || ((year mod 4 =? 0) && negb (year mod 100 =? 0)).

(** Number of days of the month with index [month] (0 = January). *)
Definition daysInMonth (year month : Z) : Z :=
  if month =? 1 then (if isLeapYearIndex year then 29 else 28)
  else if (month =? 3) || (month =? 5) || (month =? 8) || (month =? 10) then 30
  else 31.

(** Day number (days since 1970-01-01) of the civil date [y]-[m]-[d],
    with [m] counted from 1. *)
Definition days_from_civil (y m d : Z) : Z :=
  let y' := if m <=? 2 then y - 1 else y in
  let era := y' / 400 in
  let yoe := y' - era * 400 in
  let mp := if 2 <? m then m - 3 else m + 9 in
  let doy := (153 * mp + 2) / 5 + d - 1 in
  let doe := yoe * 365 + yoe / 4 - yoe / 100 + doy in
  era * 146097 + doe - 719468.

(** Civil date (year, month counted from 1, day) of a day number. *)
Definition civil_from_days (z : Z) : Z * Z * Z :=
  let z' := z + 719468 in
  let era := z' / 146097 in
  let doe := z' - era * 146097 in
  let yoe := (doe - doe / 1460 + doe / 36524 - doe / 146096) / 365 in
  let doy := doe - (365 * yoe + yoe / 4 - yoe / 100) in
  let mp := (5 * doy + 2) / 153 in
  let d := doy - (153 * mp + 2) / 5 + 1 in
  let m := if mp <? 10 then mp + 3 else mp - 9 in
  let y := yoe + era * 400 in
  (if m <=? 2 then y + 1 else y, m, d).

(** Day number of a time value, and [date.setHours(0, 0, 0, 0)]. *)
Definition dayNumber (t : Z) : Z := t / msPerDay.

Definition startOfDay (d : Date) : Date :=
  match d with
  | InvalidDate => InvalidDate
  | Time t => Time (dayNumber t * msPerDay)
  end.

(** [getDay]: 0 = Sunday ... 6 = Saturday; NaN on an invalid date.
    1970-01-01 was a Thursday. *)
Definition getDay (d : Date) : option Z :=
  match d with
  | InvalidDate => None
  | Time t => Some ((dayNumber t + 4) mod 7)
  end.

(** *** Text *)

Definition is_digit (c : ascii) : bool :=
  let n := Z.of_nat (nat_of_ascii c) in (48 <=? n) && (n <=? 57).

(** JavaScript's white space (the class [\s] of a regular expression, and
    what [trim] removes), on a text held as the bytes of its UTF-8 encoding.
    The white space characters of one byte are 9 to 13 and 32; U+00A0 takes
    two bytes; U+1680, U+2000 to U+200A, U+2028, U+2029, U+202F, U+205F,
    U+3000 and U+FEFF take three. *)
Definition byte_value (c : ascii) : Z := Z.of_nat (nat_of_ascii c).

Definition is_whitespace (c : ascii) : bool :=
  let n := byte_value c in
  ((9 <=? n) && (n <=? 13)) || (n =? 32).

Definition is_whitespace2 (c1 c2 : ascii) : bool :=
  (byte_value c1 =? 194) && (byte_value c2 =? 160).

Definition is_whitespace3 (c1 c2 c3 : ascii) : bool :=
  let '(b1, b2, b3) := (byte_value c1, byte_value c2, byte_value c3) in
  ((b1 =? 225) && (b2 =? 154) && (b3 =? 128))
  || ((b1 =? 226) && (b2 =? 128)
      && (((128 <=? b3) && (b3 <=? 138))
          || (b3 =? 168) || (b3 =? 169) || (b3 =? 175)))
  || ((b1 =? 226) && (b2 =? 129) && (b3 =? 159))
  || ((b1 =? 227) && (b2 =? 128) && (b3 =? 128))
  || ((b1 =? 239) && (b2 =? 187) && (b3 =? 191)).

(** [s.trimStart()]: the text without the white space it starts with. *)
Fixpoint trimStart (s : string) : string :=
  match s with
  | EmptyString => EmptyString
  | String c1 rest1 =>
      if is_whitespace c1 then trimStart rest1
      else
        match rest1 with
        | String c2 rest2 =>
            if is_whitespace2 c1 c2 then trimStart rest2
            else
              match rest2 with
              | String c3 rest3 =>
                  if is_whitespace3 c1 c2 c3 then trimStart rest3 else s
              | EmptyString => s
              end
        | EmptyString => s
        end
  end.

Definition digit_value (c : ascii) : Z := Z.of_nat (nat_of_ascii c) - 48.

(** The longest prefix of at most [n] digits, and the rest: the match of
    the pattern [/^\d{1,n}/]. *)
Fixpoint take_digits (n : nat) (s : string) : string * string :=
  match n, s with
  | S n', String c s' =>
      if is_digit c
      then let '(ds, rest) := take_digits n' s' in (String c ds, rest)
      else (EmptyString, s)
  | _, _ => (EmptyString, s)
  end.

(** [parseInt(ds, 10)] on a string of digits. *)
Fixpoint digits_value (acc : Z) (ds : string) : Z :=
  match ds with
  | EmptyString => acc
  | String c ds' => digits_value (10 * acc + digit_value c) ds'
  end.

(** [parseNDigits(n, dateString)]: [None] when the pattern does not match. *)
Definition parseNDigits (n : nat) (s : string) : option (Z * string) :=
  match take_digits n s with
  | (EmptyString, _) => None
  | (ds, rest) => Some (digits_value 0 ds, rest)
  end.

(** No character other than white space: the test [/\S/] fails. *)
Definition all_whitespace (s : string) : bool :=
  match trimStart s with
  | EmptyString => true
  | String _ _ => false
  end.

(** [parse(dateString, 'yyyyMMdd', new Date())].  The three tokens are
    matched in turn, each taking as many digits as it can up to its width;
    what is left must be blank; then year, month and day are validated and
    set in this order.  The result is local midnight of that day, whatever
    the reference date. *)
Definition parse_yyyyMMdd (dateString : string) : Date :=
  match parseNDigits 4 dateString with
  | None => InvalidDate
  | Some (year, rest1) =>
    match parseNDigits 2 rest1 with
    | None => InvalidDate
    | Some (mm, rest2) =>
      match parseNDigits 2 rest2 with
      | None => InvalidDate
      | Some (dd, rest3) =>
          let month := mm - 1 in
          if negb (all_whitespace rest3) then InvalidDate
          else if negb (0 <? year) then InvalidDate
          else if negb ((0 <=? month) && (month <=? 11)) then InvalidDate
          else if negb ((1 <=? dd) && (dd <=? daysInMonth year month))
          then InvalidDate
          else Time (days_from_civil year (month + 1) dd * msPerDay)
      end
    end
  end.

(** [addLeadingZeros(number, targetLength)]. *)
Fixpoint zeros (n : nat) : string :=
  match n with
  | O => EmptyString
  | S n' => String "0" (zeros n')
  end.

Definition padStart0 (targetLength : nat) (s : string) : string :=
  zeros (targetLength - String.length s) ++ s.

Definition addLeadingZeros (number : Z) (targetLength : nat) : string :=
  let sign := if number <? 0 then "-" else EmptyString in
  sign ++ padStart0 targetLength
            (NilZero.string_of_uint (N.to_uint (Z.to_N (Z.abs number)))).

(** [format(date, 'yyyyMMdd')]; [None] stands for the [RangeError]
    ("Invalid time value") that [format] throws on an invalid date. *)
Definition format_yyyyMMdd (d : Date) : option string :=
  match d with
  | InvalidDate => None
  | Time t =>
      let '(signedYear, m, dd) := civil_from_days (dayNumber t) in
      let year := if 0 <? signedYear then signedYear else 1 - signedYear in
      Some (addLeadingZeros year 4 ++ addLeadingZeros m 2
              ++ addLeadingZeros dd 2)
  end.

(** *** Intervals *)

(** [[startTime, endTime].sort((a, b) => a - b)]: a comparator that
    answers NaN leaves the pair as it is. *)
Definition sortEnds (s e : option Z) : option Z * option Z :=
  match s, e with
  | Some x, Some y => if y <? x then (Some y, Some x) else (Some x, Some y)
  | _, _ => (s, e)
  end.

Definition num_le (a b : option Z) : bool :=
  match a, b with
  | Some x, Some y => x <=? y
  | _, _ => false
  end.

(** [isWithinInterval(date, { start, end })]. *)
Definition isWithinInterval (date start end_ : Date) : bool :=
  let time := valueOf date in
  let '(startTime, endTime) := sortEnds (valueOf start) (valueOf end_) in
  num_le startTime time && num_le time endTime.

(** [isWithinInterval] as it was in date-fns 2, kept for comparison: it
    raised [RangeError] ("Invalid interval"), here [None], unless
    [startTime <= endTime]. *)
Definition isWithinInterval_v2 (date start end_ : Date) : option bool :=
  let time := valueOf date in
  let startTime := valueOf start in
  let endTime := valueOf end_ in
  if negb (num_le startTime endTime) then None
  else Some (num_le startTime time && num_le time endTime).

(** The loop of [eachDayOfInterval]:
    [while (+date <= endTime) { dates.push(date); date.setDate(date.getDate() + 1) }],
    run for at most [fuel] rounds.  On the local time line of a zone with a
    fixed offset every day has [msPerDay] milliseconds, so that
    [setDate(getDate() + 1)] adds [msPerDay]; the days of 23 and 25 hours of
    a zone that changes its offset, and a midnight that such a change
    skips, are not modelled. *)
Fixpoint eachDay_loop (fuel : nat) (date endTime : Z) (dates : list Date)
  : list Date :=
  match fuel with
  | O => dates
  | S fuel' =>
      if date <=? endTime
      then eachDay_loop fuel' (date + msPerDay) endTime (dates ++ [Time date])
      else dates
  end.

(** Number of rounds after which the loop condition fails. *)
Definition eachDay_rounds (date endTime : Z) : nat :=
  Z.to_nat ((endTime - date) / msPerDay + 1).

(** [eachDayOfInterval({ start, end })] with the default step of one day. *)
Definition eachDayOfInterval (start end_ : Date) : list Date :=
  let reversed := date_gt start end_ in
  let endTime := if reversed then start else end_ in
  let date := startOfDay (if reversed then end_ else start) in
  let dates :=
    match date, endTime with
    | Time d, Time e => eachDay_loop (eachDay_rounds d e) d e []
    | _, _ => []
    end in
  if reversed then rev dates else dates.

End DateFns.

Import DateFns.

(** ** Data model ([types/gtfs.ts]) *)

(** [calendar.txt] *)
Record GTFSCalendar : Type := {
  service_id : string;
  monday : bool;
  tuesday : bool;
  wednesday : bool;
  thursday : bool;
  friday : bool;
  saturday : bool;
  sunday : bool;
  start_date : string;
  end_date : string
}.

(** [calendar_dates.txt]; [exception_type] is a number, 1 for a service
    added and 2 for a service removed. *)
Record GTFSCalendarDate : Type := {
  cd_service_id : string;
  cd_date : string;
  exception_type : Z
}.

(** [trips.txt] *)
Record GTFSTrip : Type := {
  route_id : string;
  trip_service_id : string;
  trip_id : string;
  trip_headsign : option string;
  trip_short_name : option string;
  direction_id : option Z;
  block_id : option string;
  shape_id : option string;
  wheelchair_accessible : option Z;
  bikes_allowed : option Z
}.

(** [routes.txt] *)
Record GTFSRoute : Type := {
  r_route_id : string;
  agency_id : option string;
  route_short_name : option string;
  route_long_name : option string;
  route_desc : option string;
  route_type : Z;
  route_url : option string;
  route_color : option string;
  route_text_color : option string;
  route_sort_order : option Z
}.

Record GTFSData : Type := {
  calendars : list GTFSCalendar;
  calendarDates : list GTFSCalendarDate;
  trips : list GTFSTrip;
  routes : list GTFSRoute
}.

Inductive ExceptionLabel : Type := added | removed.

Record CalendarDayStatus : Type := {
  status_service_id : string;
  isActive : bool;
  isException : bool;
  exceptionType : option ExceptionLabel;
  calendar : option GTFSCalendar
}.

(** [TripWithRoute extends GTFSTrip]: the fields of the trip and the
    optional [route]. *)
Record TripWithRoute : Type := {
  trip : GTFSTrip;
  route : option GTFSRoute
}.

(** ** Calendar service ([utils/calendarService.ts]) *)

(** [dayOfWeekKeys]: the keys of a calendar by [getDay] index. *)
Definition dayOfWeekKeys : list (GTFSCalendar -> bool) :=
  [sunday; monday; tuesday; wednesday; thursday; friday; saturday].

Definition parseGTFSDate (dateString : string) : Date :=
  parse_yyyyMMdd dateString.

Definition formatGTFSDate (date : Date) : option string :=
  format_yyyyMMdd date.

(** [calendar[dayOfWeekKeys[getDay(date)]]]; a key that is [undefined]
    reads [undefined], which is falsy. *)
Definition isCalendarActiveOnDayOfWeek (calendar : GTFSCalendar) (date : Date)
  : bool :=
  match getDay date with
  | None => false
  | Some dayOfWeek =>
      match dayOfWeekKeys !! Z.to_nat dayOfWeek with
      | Some dayKey => dayKey calendar
      | None => false
      end
  end.

Definition isDateInCalendarRange (calendar : GTFSCalendar) (date : Date)
  : bool :=
  let startDate := parseGTFSDate (start_date calendar) in
  let endDate := parseGTFSDate (end_date calendar) in
  isWithinInterval date startDate endDate.

(** The two result arrays of [getCalendarStatusForDate], to which the
    loops push. *)
Record StatusLists : Type := {
  active : list CalendarDayStatus;
  excluded : list CalendarDayStatus
}.

Definition push_active (s : CalendarDayStatus) (st : StatusLists)
  : StatusLists :=
  {| active := active st ++ [s]; excluded := excluded st |}.

Definition push_excluded (s : CalendarDayStatus) (st : StatusLists)
  : StatusLists :=
  {| active := active st; excluded := excluded st ++ [s] |}.

(** The predicate handed to [calendarDates.find]. *)
Definition exception_matches (calendar : GTFSCalendar) (dateString : string)
    (cd : GTFSCalendarDate) : bool :=
  String.eqb (cd_service_id cd) (service_id calendar)
  && String.eqb (cd_date cd) dateString.

(** Body of the loop over [gtfsData.calendars]. *)
Definition calendar_step (gtfsData : GTFSData) (date : Date)
    (dateString : string) (st : StatusLists) (calendar : GTFSCalendar)
  : StatusLists :=
  let isInRange := isDateInCalendarRange calendar date in
  let isActiveDay := isCalendarActiveOnDayOfWeek calendar date in
  let baseActive := isInRange && isActiveDay in
  match find (exception_matches calendar dateString)
             (calendarDates gtfsData) with
  | Some exception =>
      if exception_type exception =? 1 then
        push_active {| status_service_id := service_id calendar;
                       isActive := true;
                       isException := true;
                       exceptionType := Some added;
                       calendar := Some calendar |} st
      else if exception_type exception =? 2 then
        if baseActive then
          push_excluded {| status_service_id := service_id calendar;
                           isActive := false;
                           isException := true;
                           exceptionType := Some removed;
                           calendar := Some calendar |} st
        else st
      else st
  | None =>
      if baseActive then
        push_active {| status_service_id := service_id calendar;
                       isActive := true;
                       isException := false;
                       exceptionType := None;
                       calendar := Some calendar |} st
      else st
  end.

(** Body of the loop over [gtfsData.calendarDates]; the state is the set
    [addedServiceIds] and the two arrays. *)
Definition exception_step (dateString : string)
    (calendarServiceIds : gset string)
    (st : gset string * StatusLists) (calendarDate : GTFSCalendarDate)
  : gset string * StatusLists :=
  let '(addedServiceIds, lists) := st in
  if negb (String.eqb (cd_date calendarDate) dateString) then st
  else if bool_decide (cd_service_id calendarDate ∈ calendarServiceIds) then st
  else if exception_type calendarDate =? 1 then
    ({[ cd_service_id calendarDate ]} ∪ addedServiceIds,
     push_active {| status_service_id := cd_service_id calendarDate;
                    isActive := true;
                    isException := true;
                    exceptionType := Some added;
                    calendar := None |} lists)
  else st.

(** [getCalendarStatusForDate]; [None] when [formatGTFSDate] throws. *)
Definition getCalendarStatusForDate (gtfsData : GTFSData) (date : Date)
  : option StatusLists :=
  dateString ← formatGTFSDate date;
  let addedServiceIds : gset string := ∅ in
  let lists :=
    fold_left (calendar_step gtfsData date dateString)
              (calendars gtfsData) {| active := []; excluded := [] |} in
  let calendarServiceIds : gset string :=
    list_to_set (map service_id (calendars gtfsData)) in
  let '(_, lists) :=
    fold_left (exception_step dateString calendarServiceIds)
              (calendarDates gtfsData) (addedServiceIds, lists) in
  Some lists.

Definition getActiveServiceIds (gtfsData : GTFSData) (date : Date)
  : option (gset string) :=
  lists ← getCalendarStatusForDate gtfsData date;
  Some (list_to_set (map status_service_id (active lists))).

(** [new Map(entries)] sets the entries one after the other. *)
Definition new_Map {V : Type} (entries : list (string * V)) : gmap string V :=
  fold_left (fun m e => <[ e.1 := e.2 ]> m) entries ∅.

Definition getTripsForDate (gtfsData : GTFSData) (date : Date)
  : option (list TripWithRoute) :=
  activeServiceIds ← getActiveServiceIds gtfsData date;
  let routeMap := new_Map (map (fun r => (r_route_id r, r)) (routes gtfsData)) in
  Some (map (fun trip => {| trip := trip; route := routeMap !! route_id trip |})
            (filter (fun trip => trip_service_id trip ∈ activeServiceIds)
                    (trips gtfsData))).

(** Body of the loop of [getBaseCalendarsForDate]. *)
Definition base_step (date : Date) (baseCalendars : list CalendarDayStatus)
    (calendar : GTFSCalendar) : list CalendarDayStatus :=
  let isInRange := isDateInCalendarRange calendar date in
  let isActiveDay := isCalendarActiveOnDayOfWeek calendar date in
  if isInRange && isActiveDay then
    baseCalendars ++ [ {| status_service_id := service_id calendar;
                          isActive := true;
                          isException := false;
                          exceptionType := None;
                          calendar := Some calendar |} ]
  else baseCalendars.

Definition getBaseCalendarsForDate (gtfsData : GTFSData) (date : Date)
  : list CalendarDayStatus :=
  fold_left (base_step date) (calendars gtfsData) [].

(** State of the scan of [getDateRange]: [minDate] and [maxDate], each
    [null] ([None]) or a date. *)
Definition lower (minDate : option Date) (d : Date) : option Date :=
  match minDate with
  | None => Some d
  | Some m => if date_lt d m then Some d else Some m
  end.

Definition raise (maxDate : option Date) (d : Date) : option Date :=
  match maxDate with
  | None => Some d
  | Some m => if date_gt d m then Some d else Some m
  end.

Definition range_calendar_step (st : option Date * option Date)
    (calendar : GTFSCalendar) : option Date * option Date :=
  let startDate := parseGTFSDate (start_date calendar) in
  let endDate := parseGTFSDate (end_date calendar) in
  (lower st.1 startDate, raise st.2 endDate).

Definition range_exception_step (st : option Date * option Date)
    (calendarDate : GTFSCalendarDate) : option Date * option Date :=
  let date := parseGTFSDate (cd_date calendarDate) in
  (lower st.1 date, raise st.2 date).

(** [getDateRange]: [None] is [null], [Some (start, end)] the interval. *)
Definition getDateRange (gtfsData : GTFSData) : option (Date * Date) :=
  if (length (calendars gtfsData) =? 0)%nat
     && (length (calendarDates gtfsData) =? 0)%nat
  then None
  else
    let st := fold_left range_calendar_step (calendars gtfsData) (None, None) in
    let st := fold_left range_exception_step (calendarDates gtfsData) st in
    match st with
    | (Some minDate, Some maxDate) => Some (minDate, maxDate)
    | _ => None
    end.

(** [getAvailableDates].  The function takes the dataset only and reads the
    clock itself ([new Date()]); [now] is the time value the clock gives at
    the call. *)
Definition getAvailableDates (now : Z) (gtfsData : GTFSData) : list Date :=
  match getDateRange gtfsData with
  | None => []
  | Some (range_start, range_end) =>
      let today := startOfDay (Time now) in
      let startDate := if date_gt today range_start then today else range_start in
      if date_gt startDate range_end then []
      else eachDayOfInterval startDate range_end
  end.

(** ** Validator ([utils/gtfsValidator.ts]) *)

(** A JavaScript [Map] from strings to numbers whose iteration order
    matters: the entries in insertion order.  [set] on a key already present
    keeps its place. *)
Module OrderedMap.

Definition t : Type := list (string * Z).

Fixpoint get (seen : t) (key : string) : option Z :=
  match seen with
  | [] => None
  | (k, v) :: rest => if String.eqb k key then Some v else get rest key
  end.

Fixpoint set (seen : t) (key : string) (value : Z) : t :=
  match seen with
  | [] => [(key, value)]
  | (k, v) :: rest =>
      if String.eqb k key then (k, value) :: rest
      else (k, v) :: set rest key value
  end.

End OrderedMap.

(** [seen.get(item) || 0]: [undefined] and [0] both give [0]. *)
Definition count_or_0 (seen : OrderedMap.t) (item : string) : Z :=
  match OrderedMap.get seen item with
  | None => 0
  | Some count => count
  end.

Definition findDuplicates (arr : list string) : list string :=
  let seen :=
    fold_left (fun seen item =>
                 let count := count_or_0 seen item in
                 OrderedMap.set seen item (count + 1))
              arr [] in
  fold_left (fun duplicates '(item, count) =>
               if 1 <? count then (duplicates ++ [item])%list else duplicates)
            seen [].

Inductive IssueType : Type := error | warning.

Record ValidationIssue : Type := {
  type : IssueType;
  file : string;
  field : string;
  message : string;
  duplicates : list string
}.

Record ValidationStats : Type := {
  tripsChecked : nat;
  calendarsChecked : nat;
  calendarDatesChecked : nat
}.

Record ValidationResult : Type := {
  isValid : bool;
  issues : list ValidationIssue;
  stats : ValidationStats
}.

(** [s.split(sep)] for a separator of one character. *)
Fixpoint split (sep : ascii) (s : string) : list string :=
  match s with
  | EmptyString => [EmptyString]
  | String c s' =>
      if Ascii.eqb c sep then EmptyString :: split sep s'
      else match split sep s' with
           | part :: parts => String c part :: parts
           | [] => [String c EmptyString]
           end
  end.

Definition quote : string := String (ascii_of_nat 34) EmptyString.

Definition number_to_string (n : nat) : string :=
  NilZero.string_of_uint (Nat.to_uint n).

(** A template-string slot prints a missing array element as
    [undefined]. *)
Definition element_or_undefined (parts : list string) (i : nat) : string :=
  match parts !! i with
  | Some part => part
  | None => "undefined"
  end.

(** The key of an exception row: [`${cd.service_id}|${cd.date}`]. *)
Definition calendarDateKey (cd : GTFSCalendarDate) : string :=
  (cd_service_id cd ++ "|" ++ cd_date cd)%string.

(** How a duplicate key is listed:
    [const [serviceId, date] = key.split('|')] and then
    [`service_id="${serviceId}", date="${date}"`]. *)
Definition describeKey (key : string) : string :=
  let parts := split "|" key in
  let serviceId := element_or_undefined parts 0 in
  let date := element_or_undefined parts 1 in
  ("service_id=" ++ quote ++ serviceId ++ quote ++ ", date=" ++ quote ++ date
     ++ quote)%string.

Definition push_issue (cond : bool) (issue : ValidationIssue)
    (issues : list ValidationIssue) : list ValidationIssue :=
  if cond then (issues ++ [issue])%list else issues.

Definition validateGTFSData (gtfsData : GTFSData) : ValidationResult :=
  let issues : list ValidationIssue := [] in
  let tripIds := map trip_id (trips gtfsData) in
  let duplicateTripIds := findDuplicates tripIds in
  let issues :=
    push_issue (0 <? length duplicateTripIds)%nat
      {| type := error;
         file := "trips.txt";
         field := "trip_id";
         message := ("Found " ++ number_to_string (length duplicateTripIds)
                       ++ " duplicate trip_id value(s)")%string;
         duplicates := duplicateTripIds |} issues in
  let calendarServiceIds := map service_id (calendars gtfsData) in
  let duplicateCalendarServiceIds := findDuplicates calendarServiceIds in
  let issues :=
    push_issue (0 <? length duplicateCalendarServiceIds)%nat
      {| type := error;
         file := "calendar.txt";
         field := "service_id";
         message := ("Found "
                       ++ number_to_string (length duplicateCalendarServiceIds)
                       ++ " duplicate service_id value(s)")%string;
         duplicates := duplicateCalendarServiceIds |} issues in
  let calendarDateKeys := map calendarDateKey (calendarDates gtfsData) in
  let duplicateCalendarDateKeys := findDuplicates calendarDateKeys in
  let issues :=
    push_issue (0 <? length duplicateCalendarDateKeys)%nat
      {| type := error;
         file := "calendar_dates.txt";
         field := "service_id + date";
         message := ("Found "
                       ++ number_to_string (length duplicateCalendarDateKeys)
                       ++ " duplicate service_id + date combination(s)")%string;
         duplicates := map describeKey duplicateCalendarDateKeys |} issues in
  {| isValid := (length issues =? 0)%nat;
     issues := issues;
     stats := {| tripsChecked := length (trips gtfsData);
                 calendarsChecked := length (calendars gtfsData);
                 calendarDatesChecked := length (calendarDates gtfsData) |} |}.

(** ** The rest of the calendar service *)

(** [DayInfo] *)
Record DayInfo : Type := {
  di_date : Date;
  di_dateString : string;
  baseCalendars : list CalendarDayStatus;
  activeCalendars : list CalendarDayStatus;
  excludedCalendars : list CalendarDayStatus;
  activeTrips : list TripWithRoute
}.

(** [getDayInfo]; [None] when one of the calls throws. *)
Definition getDayInfo (gtfsData : GTFSData) (date : Date) : option DayInfo :=
  lists ← getCalendarStatusForDate gtfsData date;
  let baseCalendars := getBaseCalendarsForDate gtfsData date in
  activeTrips ← getTripsForDate gtfsData date;
  dateString ← formatGTFSDate date;
  Some {| di_date := date;
          di_dateString := dateString;
          baseCalendars := baseCalendars;
          activeCalendars := active lists;
          excludedCalendars := excluded lists;
          activeTrips := activeTrips |}.

Record ServiceStats : Type := {
  totalCalendars : nat;
  totalExceptions : nat;
  totalTrips : nat;
  totalRoutes : nat;
  uniqueServiceIds : nat
}.

Definition getServiceStats (gtfsData : GTFSData) : ServiceStats :=
  {| totalCalendars := length (calendars gtfsData);
     totalExceptions := length (calendarDates gtfsData);
     totalTrips := length (trips gtfsData);
     totalRoutes := length (routes gtfsData);
     uniqueServiceIds :=
       size (list_to_set
               (map service_id (calendars gtfsData)
                  ++ map cd_service_id (calendarDates gtfsData))%list
             : gset string) |}.

(** ** CSV reader ([utils/gtfsParser.ts]) *)

(** The double quote character. *)
Definition quote_char : ascii := ascii_of_nat 34.

(** The loop of [parseCSVLine] over the characters that are left, with its
    three variables.  On a doubled quote inside quotes the loop steps over
    both characters ([i++]). *)
Fixpoint parseCSVLine_loop (line : string) (result : list string)
    (current : string) (inQuotes : bool) : list string :=
  match line with
  | EmptyString => (result ++ [current])%list
  | String char rest =>
      if Ascii.eqb char quote_char then
        match inQuotes, rest with
        | true, String next rest' =>
            if Ascii.eqb next quote_char
            then parseCSVLine_loop rest' result
                   (current ++ String quote_char EmptyString) inQuotes
            else parseCSVLine_loop rest result current (negb inQuotes)
        | _, _ => parseCSVLine_loop rest result current (negb inQuotes)
        end
      else if Ascii.eqb char "," && negb inQuotes then
        parseCSVLine_loop rest (result ++ [current])%list EmptyString inQuotes
      else
        parseCSVLine_loop rest result (current ++ String char EmptyString)
          inQuotes
  end.

Definition parseCSVLine (line : string) : list string :=
  parseCSVLine_loop line [] EmptyString false.

(** [s.trim()]: white space is removed at both ends ([trimStart] is with the
    date library above).  A text that is white space to its end is cut
    there. *)
Fixpoint trimEnd (s : string) : string :=
  match s with
  | EmptyString => EmptyString
  | String c s' =>
      if all_whitespace s then EmptyString else String c (trimEnd s')
  end.

Definition trim (s : string) : string := trimEnd (trimStart s).

(** [s.split(/\r?\n/)]: a line feed, or a carriage return and a line feed,
    ends a line. *)
Fixpoint splitLines (s : string) : list string :=
  match s with
  | EmptyString => [EmptyString]
  | String c s' =>
      if Ascii.eqb c (ascii_of_nat 10) then EmptyString :: splitLines s'
      else
        match s' with
        | String c' s'' =>
            if Ascii.eqb c (ascii_of_nat 13) && Ascii.eqb c' (ascii_of_nat 10)
            then EmptyString :: splitLines s''
            else match splitLines s' with
                 | part :: parts => String c part :: parts
                 | [] => [String c EmptyString]
                 end
        | EmptyString => [String c EmptyString]
        end
  end.

(** The object built for one line:
    [headers.forEach((header, index) => { obj[header.trim()] = values[index]?.trim() ?? '' })].
    Setting the key [__proto__] of an object to a string has no effect. *)
Definition set_cell (values : list string) (obj : gmap string string)
    (entry : nat * string) : gmap string string :=
  let '(index, header) := entry in
  let value := match values !! index with
               | Some v => trim v
               | None => EmptyString
               end in
  if String.eqb (trim header) "__proto__" then obj
  else <[ trim header := value ]> obj.

Definition row_object (headers values : list string) : gmap string string :=
  fold_left (set_cell values) (imap (λ index header, (index, header)) headers) ∅.

(** Body of the loop of [parseCSV] over the lines after the first. *)
Definition parseCSV_step (headers : list string)
    (results : list (gmap string string)) (line : string)
  : list (gmap string string) :=
  let values := parseCSVLine line in
  if (length values =? 0)%nat then results
  else (results ++ [row_object headers values])%list.

Definition parseCSV (csvText : string) : list (gmap string string) :=
  let lines := splitLines (trim csvText) in
  if (length lines <? 2)%nat then []
  else
    match lines with
    | [] => []
    | first :: others =>
        let headers := parseCSVLine first in
        fold_left (parseCSV_step headers) others []
    end.

(** ** Display components *)

(** The three groups of [CalendarList] ([components/CalendarList.tsx]). *)
Definition is_label (l : ExceptionLabel) (o : option ExceptionLabel) : bool :=
  match o, l with
  | Some added, added => true
  | Some removed, removed => true
  | _, _ => false
  end.

Definition regularCalendars (calendars : list CalendarDayStatus)
  : list CalendarDayStatus :=
  List.filter (λ c, negb (isException c)) calendars.

Definition addedExceptions (calendars : list CalendarDayStatus)
  : list CalendarDayStatus :=
  List.filter (λ c, isException c && is_label added (exceptionType c)) calendars.

Definition removedExceptions (calendars : list CalendarDayStatus)
  : list CalendarDayStatus :=
  List.filter (λ c, isException c && is_label removed (exceptionType c))
              calendars.

(** [a || b] on a string that may be [undefined]: the empty string and
    [undefined] are falsy. *)
Definition or_else (a : option string) (b : string) : string :=
  match a with
  | Some (String c s) => String c s
  | _ => b
  end.

(** The key under which [TripsList] ([components/TripsList.tsx]) groups a
    trip:
    [trip.route?.route_short_name || trip.route?.route_long_name || trip.route_id]. *)
Definition routeKey (twr : TripWithRoute) : string :=
  or_else (route twr ≫= route_short_name)
          (or_else (route twr ≫= route_long_name) (route_id (trip twr))).

(** The [Map] from route keys to arrays of trips, in insertion order. *)
Fixpoint group_get (grouped : list (string * list TripWithRoute))
    (key : string) : option (list TripWithRoute) :=
  match grouped with
  | [] => None
  | (k, v) :: rest => if String.eqb k key then Some v else group_get rest key
  end.

Fixpoint group_set (grouped : list (string * list TripWithRoute))
    (key : string) (value : list TripWithRoute)
  : list (string * list TripWithRoute) :=
  match grouped with
  | [] => [(key, value)]
  | (k, v) :: rest =>
      if String.eqb k key then (k, value) :: rest
      else (k, v) :: group_set rest key value
  end.

(** [tripsByRoute]: for each trip, the array found under its key (or a new
    one), with the trip pushed, is set under the key. *)
Definition tripsByRoute (trips : list TripWithRoute)
  : list (string * list TripWithRoute) :=
  fold_left (λ grouped twr,
               let key := routeKey twr in
               let existing := match group_get grouped key with
                               | Some found => found
                               | None => []
                               end in
               group_set grouped key (existing ++ [twr])%list)
            trips [].

Local Close Scope string_scope.

(** ** Vocabulary of the properties *)

Definition baseActive (c : GTFSCalendar) (date : Date) : bool :=
  isDateInCalendarRange c date && isCalendarActiveOnDayOfWeek c date.

Definition regular_status (c : GTFSCalendar) : CalendarDayStatus :=
  {| status_service_id := service_id c; isActive := true;
     isException := false; exceptionType := None; calendar := Some c |}.

Definition added_status (c : GTFSCalendar) : CalendarDayStatus :=
  {| status_service_id := service_id c; isActive := true;
     isException := true; exceptionType := Some added; calendar := Some c |}.

Definition removed_status (c : GTFSCalendar) : CalendarDayStatus :=
  {| status_service_id := service_id c; isActive := false;
     isException := true; exceptionType := Some removed; calendar := Some c |}.

(** Status of a service that exists only as an exception row. *)
Definition added_only_status (cd : GTFSCalendarDate) : CalendarDayStatus :=
  {| status_service_id := cd_service_id cd; isActive := true;
     isException := true; exceptionType := Some added; calendar := None |}.

(** What one calendar row contributes. *)
Inductive Outcome : Type :=
| NoEntry
| ActiveEntry (s : CalendarDayStatus)
| ExcludedEntry (s : CalendarDayStatus).

Definition active_entry (o : Outcome) : list CalendarDayStatus :=
  match o with ActiveEntry s => [s] | _ => [] end.

Definition excluded_entry (o : Outcome) : list CalendarDayStatus :=
  match o with ExcludedEntry s => [s] | _ => [] end.

(** The kind of an exception row: Added for 1, Removed for 2. *)
Definition exception_kind (cd : GTFSCalendarDate) : option ExceptionLabel :=
  if exception_type cd =? 1 then Some added
  else if exception_type cd =? 2 then Some removed
  else None.

(** The table: exception found, its kind, [baseActive], result. *)
Definition decision_table (c : GTFSCalendar) (found : option GTFSCalendarDate)
    (base : bool) : Outcome :=
  match found with
  | None => if base then ActiveEntry (regular_status c) else NoEntry
  | Some e =>
      match exception_kind e with
      | Some added => ActiveEntry (added_status c)
      | Some removed => if base then ExcludedEntry (removed_status c) else NoEntry
      | None => NoEntry
      end
  end.

Definition row_outcome (gtfsData : GTFSData) (date : Date) (dateString : string)
    (c : GTFSCalendar) : Outcome :=
  decision_table c
    (find (exception_matches c dateString) (calendarDates gtfsData))
    (baseActive c date).

(** An exception row is for the calendar row [c] and the day [dateString]. *)
Definition Matches (c : GTFSCalendar) (dateString : string)
    (cd : GTFSCalendarDate) : Prop :=
  cd_service_id cd = service_id c ∧ cd_date cd = dateString.

(** [e] is the first row of [exceptions], in their order, that matches. *)
Definition FirstMatch (exceptions : list GTFSCalendarDate) (c : GTFSCalendar)
    (dateString : string) (e : GTFSCalendarDate) : Prop :=
  ∃ before after,
    exceptions = before ++ e :: after
    ∧ Matches c dateString e
    ∧ Forall (λ cd, ¬ Matches c dateString cd) before.

Definition NoMatch (exceptions : list GTFSCalendarDate) (c : GTFSCalendar)
    (dateString : string) : Prop :=
  Forall (λ cd, ¬ Matches c dateString cd) exceptions.

(** Some calendar row carries the service id. *)
Definition in_calendars (gtfsData : GTFSData) (sid : string) : Prop :=
  ∃ c, c ∈ calendars gtfsData ∧ service_id c = sid.

#[local] Instance in_calendars_dec gtfsData sid :
  Decision (in_calendars gtfsData sid).
Proof.
  unfold in_calendars.
  refine (cast_if (decide (Exists (λ c, service_id c = sid)
                                  (calendars gtfsData))));
    rewrite Exists_exists in *; done.
Defined.

(** What one exception row contributes on its own account. *)
Definition exception_only_entry (gtfsData : GTFSData) (dateString : string)
    (cd : GTFSCalendarDate) : list CalendarDayStatus :=
  if decide (cd_date cd = dateString ∧ ¬ in_calendars gtfsData (cd_service_id cd))
  then match exception_kind cd with
       | Some added => [added_only_status cd]
       | _ => []
       end
  else [].

Definition apply_outcome (o : Outcome) (st : StatusLists) : StatusLists :=
  match o with
  | NoEntry => st
  | ActiveEntry s => push_active s st
  | ExcludedEntry s => push_excluded s st
  end.

(** The result of [getCalendarStatusForDate] on a valid date, row by row. *)
Definition resolved (gtfsData : GTFSData) (date : Date) (dateString : string)
  : StatusLists :=
  {| active :=
       flat_map (λ c, active_entry (row_outcome gtfsData date dateString c))
                (calendars gtfsData)
       ++ flat_map (exception_only_entry gtfsData dateString)
                   (calendarDates gtfsData);
     excluded :=
       flat_map (λ c, excluded_entry (row_outcome gtfsData date dateString c))
                (calendars gtfsData) |}.

(** A row one of whose two dates does not parse. *)
Definition unparseable (c : GTFSCalendar) : Prop :=
  parseGTFSDate (start_date c) = InvalidDate
  ∨ parseGTFSDate (end_date c) = InvalidDate.

(** The dates [getDateRange] lowers [minDate] with, and those it raises
    [maxDate] with, in the order of the scan. *)
Definition lower_dates (gtfsData : GTFSData) : list Date :=
  map (λ c, parseGTFSDate (start_date c)) (calendars gtfsData)
  ++ map (λ cd, parseGTFSDate (cd_date cd)) (calendarDates gtfsData).

Definition upper_dates (gtfsData : GTFSData) : list Date :=
  map (λ c, parseGTFSDate (end_date c)) (calendars gtfsData)
  ++ map (λ cd, parseGTFSDate (cd_date cd)) (calendarDates gtfsData).

(** All the dates of the dataset. *)
Definition all_dates (gtfsData : GTFSData) : list Date :=
  map (λ c, parseGTFSDate (start_date c)) (calendars gtfsData)
  ++ map (λ c, parseGTFSDate (end_date c)) (calendars gtfsData)
  ++ map (λ cd, parseGTFSDate (cd_date cd)) (calendarDates gtfsData).

Definition all_parse (gtfsData : GTFSData) : Prop :=
  Forall (λ d, d ≠ InvalidDate) (all_dates gtfsData).

(** Every calendar row has its start date no later than its end date. *)
Definition ranges_in_order (gtfsData : GTFSData) : Prop :=
  Forall (λ c, date_le (parseGTFSDate (start_date c))
                       (parseGTFSDate (end_date c)) = true)
         (calendars gtfsData).

(** Number of occurrences of [k] in [arr]. *)
Definition occurrences (k : string) (arr : list string) : Z :=
  Z.of_nat (length (filter (λ x, x = k) arr)).

(** The distinct values of [arr] in the order in which a scan from the left
    first meets them. *)
Definition first_encounters (arr : list string) : list string :=
  fold_left (λ acc x, if decide (x ∈ acc) then acc else acc ++ [x]) arr [].

(** The [Map] with the keys [ks], in this order, and the values [f k]. *)
Definition table (f : string → Z) (ks : list string) : OrderedMap.t :=
  map (λ k, (k, f k)) ks.

(** The map [seen] after the first loop of [findDuplicates]. *)
Definition seen_of (arr : list string) : OrderedMap.t :=
  fold_left (λ seen item, OrderedMap.set seen item (count_or_0 seen item + 1))
            arr [].

(** The text has no [|], the separator of the exception keys. *)
Fixpoint no_separator (s : string) : bool :=
  match s with
  | EmptyString => true
  | String c s' => negb (Ascii.eqb c "|") && no_separator s'
  end.

(** *** Texts of dates *)

(** A text of digits only. *)
Fixpoint all_digits (s : string) : bool :=
  match s with
  | EmptyString => true
  | String c s' => is_digit c && all_digits s'
  end.

(** A text of eight digits, the form in which GTFS writes a date. *)
Definition canonical_date (s : string) : Prop :=
  String.length s = 8%nat ∧ all_digits s = true.

(** [addLeadingZeros n width] has [width] digits, and they spell [n]. *)
Definition pads_well (width : nat) (n : Z) : bool :=
  let s := addLeadingZeros n width in
  (String.length s =? width)%nat && all_digits s && (digits_value 0 s =? n).

(** *** Validator and statistics *)

(** The file named by an issue: none when the keys of the file are without
    repetition. *)
Definition issue_file_if (ok : Prop) `{Decision ok} (name : string) : list string :=
  if decide ok then [] else [name].

(** The service ids of [calendar.txt] followed by those of
    [calendar_dates.txt], as [getServiceStats] spreads them. *)
Definition all_service_ids (gtfsData : GTFSData) : list string :=
  map service_id (calendars gtfsData)
  ++ map cd_service_id (calendarDates gtfsData).

(** *** Groups of trips *)

Definition groups_of (f : string → list TripWithRoute) (ks : list string)
  : list (string * list TripWithRoute) :=
  map (λ k, (k, f k)) ks.

Definition trips_with_key (trips : list TripWithRoute) (k : string)
  : list TripWithRoute :=
  filter (λ twr, routeKey twr = k) trips.

(** *** Available days *)

(** The day numbers that [getAvailableDates] lists. *)
Definition available_days (now : Z) (gtfsData : GTFSData) : list Z :=
  match getDateRange gtfsData with
  | Some (Time s, Time e) =>
      let first := Z.max (dayNumber now * msPerDay) s in
      if e <? first then []
      else seqZ (dayNumber first) (dayNumber e - dayNumber first + 1)
  | _ => []
  end.

(** *** CSV lines *)

(** A text without a double quote. *)
Fixpoint no_quote (s : string) : bool :=
  match s with
  | EmptyString => true
  | String c s' => negb (Ascii.eqb c quote_char) && no_quote s'
  end.

(** A field with each of its double quotes doubled. *)
Fixpoint double_quotes (field : string) : string :=
  match field with
  | EmptyString => EmptyString
  | String c field' =>
      if Ascii.eqb c quote_char
      then String quote_char (String quote_char (double_quotes field'))
      else String c (double_quotes field')
  end.

(** A field written between double quotes. *)
Definition csv_quote (field : string) : string :=
  String quote_char (double_quotes field +:+ String quote_char EmptyString).

(** Quoted fields joined by commas. *)
Fixpoint csv_line (fields : list string) : string :=
  match fields with
  | [] => EmptyString
  | [field] => csv_quote field
  | field :: fields' => csv_quote field +:+ String "," (csv_line fields')
  end.

(** The value that a row object gives the header at [index]. *)
Definition cell (values : list string) (index : nat) : string :=
  match values !! index with
  | Some v => trim v
  | None => EmptyString
  end.

(** ** Sample datasets *)

(** From 2024-12-31 back to 2024-01-01, every day of the week. *)
Definition reversed_row : GTFSCalendar :=
  {| service_id := "REV";
     monday := true; tuesday := true; wednesday := true; thursday := true;
     friday := true; saturday := true; sunday := true;
     start_date := "20241231"; end_date := "20240101" |}.

Definition reversed_dataset : GTFSData :=
  {| calendars := [reversed_row]; calendarDates := []; trips := [];
     routes := [] |}.

(** Local midnight of 2024-07-04, a Thursday. *)
Definition july_4th_2024 : Date := Time 1720051200000.

(** Noon of 2024-12-31, a Tuesday. *)
Definition noon_of_2024_12_31 : Date := Time 1735646400000.

(** From 2024-01-01 to 2024-01-03, every day of the week. *)
Definition three_days_row : GTFSCalendar :=
  {| service_id := "S";
     monday := true; tuesday := true; wednesday := true; thursday := true;
     friday := true; saturday := true; sunday := true;
     start_date := "20240101"; end_date := "20240103" |}.

Definition three_days_dataset : GTFSData :=
  {| calendars := [three_days_row]; calendarDates := []; trips := [];
     routes := [] |}.

(** Monday to Friday, all of 2024. *)
Definition weekday_row : GTFSCalendar :=
  {| service_id := "WD";
     monday := true; tuesday := true; wednesday := true; thursday := true;
     friday := true; saturday := false; sunday := false;
     start_date := "20240101"; end_date := "20241231" |}.

Definition plain_trip (route service id : string) : GTFSTrip :=
  {| route_id := route; trip_service_id := service; trip_id := id;
     trip_headsign := None; trip_short_name := None; direction_id := None;
     block_id := None; shape_id := None; wheelchair_accessible := None;
     bikes_allowed := None |}.

Definition plain_route (id short_name : string) : GTFSRoute :=
  {| r_route_id := id; agency_id := None;
     route_short_name := Some short_name; route_long_name := None;
     route_desc := None; route_type := 3; route_url := None;
     route_color := None; route_text_color := None;
     route_sort_order := None |}.

(** The weekday service alone. *)
Definition weekday_dataset : GTFSData :=
  {| calendars := [weekday_row]; calendarDates := []; trips := [];
     routes := [] |}.

(** Two route rows with the route id R1. *)
Definition two_routes_dataset : GTFSData :=
  {| calendars := [weekday_row];
     calendarDates := [];
     trips := [plain_trip "R1" "WD" "T1"];
     routes := [plain_route "R1" "1"; plain_route "R1" "1bis"] |}.

(** The weekday service with its removal on 2024-07-04 and a service that
    exists only as an addition on that day. *)
Definition holiday_dataset : GTFSData :=
  {| calendars := [weekday_row];
     calendarDates :=
       [ {| cd_service_id := "WD"; cd_date := "20240704"; exception_type := 2 |};
         {| cd_service_id := "HOLIDAY"; cd_date := "20240704";
            exception_type := 1 |} ];
     trips := [plain_trip "R1" "WD" "T1"; plain_trip "R1" "HOLIDAY" "T2"];
     routes := [plain_route "R1" "1"] |}.

(** A row whose start date is not a date. *)
Definition garbled_row : GTFSCalendar :=
  {| service_id := "BAD";
     monday := true; tuesday := true; wednesday := true; thursday := true;
     friday := true; saturday := true; sunday := true;
     start_date := "2024-01-01"; end_date := "20241231" |}.

Definition garbled_dataset : GTFSData :=
  {| calendars := [garbled_row]; calendarDates := []; trips := [];
     routes := [] |}.

(** Two exception rows for (A|B, 20240101) and two for (A|B, 20240102). *)
Definition separator_dataset : GTFSData :=
  {| calendars := [];
     calendarDates :=
       [ {| cd_service_id := "A|B"; cd_date := "20240101"; exception_type := 1 |};
         {| cd_service_id := "A|B"; cd_date := "20240101"; exception_type := 1 |};
         {| cd_service_id := "A|B"; cd_date := "20240102"; exception_type := 1 |};
         {| cd_service_id := "A|B"; cd_date := "20240102"; exception_type := 1 |} ];
     trips := [];
     routes := [] |}.

(** Two exception rows with different service ids and different dates. *)
Definition collision_dataset : GTFSData :=
  {| calendars := [];
     calendarDates :=
       [ {| cd_service_id := "A|B"; cd_date := "C"; exception_type := 1 |};
         {| cd_service_id := "A"; cd_date := "B|C"; exception_type := 1 |} ];
     trips := [];
     routes := [] |}.

(** The text [service_id="A", date="B"]. *)
Definition service_A_date_B : string :=
  ("service_id=" ++ quote ++ "A" ++ quote ++ ", date=" ++ quote ++ "B"
     ++ quote)%string.

(** ** Facts about the date library and the two range tests *)

Lemma formatGTFSDate_valid t : ∃ dateString, formatGTFSDate (Time t) = Some dateString.
Proof.
  unfold formatGTFSDate, format_yyyyMMdd.
  destruct (civil_from_days (dayNumber t)) as [[y m] d]. eauto.
Qed.

Lemma formatGTFSDate_invalid : formatGTFSDate InvalidDate = None.
Proof. reflexivity. Qed.

Lemma isWithinInterval_valid t s e :
  isWithinInterval (Time t) (Time s) (Time e) = true
  ↔ Z.min s e ≤ t ≤ Z.max s e.
Proof.
  unfold isWithinInterval, sortEnds, num_le, valueOf.
  destruct (Z.ltb_spec e s); rewrite andb_true_iff, !Z.leb_le; lia.
Qed.

(** On an interval whose ends are valid and in order, the older and the
    newer [isWithinInterval] agree. *)
Lemma isWithinInterval_versions_agree date s e :
  s ≤ e →
  isWithinInterval_v2 date (Time s) (Time e)
  = Some (isWithinInterval date (Time s) (Time e)).
Proof.
  intros Hle. unfold isWithinInterval_v2, isWithinInterval, sortEnds. simpl.
  destruct (Z.leb_spec s e); [|lia]. destruct (Z.ltb_spec e s); [lia|done].
Qed.

Lemma isWithinInterval_invalid_start date e :
  isWithinInterval date InvalidDate e = false.
Proof. by destruct date, e. Qed.

Lemma isWithinInterval_invalid_end date s :
  isWithinInterval date s InvalidDate = false.
Proof.
  destruct date, s; try done.
  unfold isWithinInterval. simpl. apply andb_false_r.
Qed.

Lemma isWithinInterval_invalid_date s e :
  isWithinInterval InvalidDate s e = false.
Proof.
  unfold isWithinInterval.
  destruct (sortEnds _ _) as [[a|] [b|]]; simpl; try done.
Qed.

Lemma unparseable_never_in_range c date :
  unparseable c → isDateInCalendarRange c date = false.
Proof.
  unfold unparseable, isDateInCalendarRange. intros [-> | ->].
  - apply isWithinInterval_invalid_start.
  - apply isWithinInterval_invalid_end.
Qed.

(** On a date at local midnight and a row whose dates parse in order, the
    range test is the inclusive comparison of the day numbers. *)
Lemma isDateInCalendarRange_days c day s e :
  parseGTFSDate (start_date c) = Time (s * msPerDay) →
  parseGTFSDate (end_date c) = Time (e * msPerDay) →
  s ≤ e →
  isDateInCalendarRange c (Time (day * msPerDay)) = true ↔ s ≤ day ≤ e.
Proof.
  intros Hs He Hle. unfold isDateInCalendarRange. rewrite Hs, He.
  rewrite isWithinInterval_valid. unfold msPerDay. lia.
Qed.

(** On a row whose dates parse in order the range test is inclusive at both
    ends, on time values. *)
Lemma isDateInCalendarRange_ordered c s e t :
  parseGTFSDate (start_date c) = Time s →
  parseGTFSDate (end_date c) = Time e →
  s ≤ e →
  isDateInCalendarRange c (Time t) = true ↔ s ≤ t ≤ e.
Proof.
  intros Hs He Hle. unfold isDateInCalendarRange. rewrite Hs, He.
  rewrite isWithinInterval_valid. lia.
Qed.

(** The flag that [isCalendarActiveOnDayOfWeek] reads on a valid date. *)
Lemma isCalendarActiveOnDayOfWeek_flag c t :
  isCalendarActiveOnDayOfWeek c (Time t)
  = match (dayNumber t + 4) mod 7 with
    | 0 => sunday c
    | 1 => monday c
    | 2 => tuesday c
    | 3 => wednesday c
    | 4 => thursday c
    | 5 => friday c
    | _ => saturday c
    end.
Proof.
  unfold isCalendarActiveOnDayOfWeek, getDay.
  pose proof (Z.mod_pos_bound (dayNumber t + 4) 7 ltac:(lia)) as Hb.
  destruct ((dayNumber t + 4) mod 7) as [|p|p]; [done| |lia].
  do 3 (destruct p as [p|p|]; try done; try lia).
Qed.

Example parse_2024_07_04 :
  parseGTFSDate "20240704" = july_4th_2024
  ∧ formatGTFSDate july_4th_2024 = Some "20240704"%string
  ∧ getDay july_4th_2024 = Some 4.
Proof. by vm_compute. Qed.

(** Strings that [parse] refuses: other separators, a thirteenth month, a
    day the month does not have, the year 0, text after the date. *)
Example parse_refuses :
  Forall (λ dateString, parseGTFSDate dateString = InvalidDate)
         ["2024-07-04"; "20241301"; "20230229"; "00000101"; "20240704x";
          ""; "tomorrow"]%string.
Proof. repeat constructor. Qed.

(** Strings that [parse] accepts although they are not eight digits: each
    token takes the digits it finds, and blanks may follow. *)
Example parse_lenient :
  parseGTFSDate "2024071" = parseGTFSDate "20240701"
  ∧ parseGTFSDate "20240704 " = parseGTFSDate "20240704".
Proof. by vm_compute. Qed.

(** [parse] answers local midnight of some day or an invalid date. *)
Lemma parseGTFSDate_midnight s t :
  parseGTFSDate s = Time t → ∃ day, t = day * msPerDay.
Proof.
  unfold parseGTFSDate, parse_yyyyMMdd.
  repeat case_match; try done. intros [= <-]. eauto.
Qed.

(** ** Round trips between dates and their texts

    [parseGTFSDate] and [formatGTFSDate] undo each other on the dates of the
    years 1 to 9999 and on the texts of eight digits. *)

(** *** Days and civil dates *)

Lemma isLeapYearIndex_spec y :
  isLeapYearIndex y = true ↔ (y mod 400 = 0 ∨ (y mod 4 = 0 ∧ y mod 100 ≠ 0)).
Proof.
  unfold isLeapYearIndex.
  rewrite orb_true_iff, andb_true_iff, negb_true_iff, !Z.eqb_eq, Z.eqb_neq. tauto.
Qed.

Lemma yoe_of_doe yoe doy :
  0 ≤ yoe ≤ 399 → 0 ≤ doy →
  (doy ≤ 364 ∨ (doy = 365 ∧ yoe mod 4 = 3 ∧ (yoe mod 100 ≠ 99 ∨ yoe = 399))) →
  let doe := yoe * 365 + yoe / 4 - yoe / 100 + doy in
  (doe - doe / 1460 + doe / 36524 - doe / 146096) / 365 = yoe ∧ 0 ≤ doe ≤ 146096.
Proof.
  intros Hy Hd Hl doe. subst doe.
  Z.to_euclidean_division_equations; lia.
Qed.

Lemma month_of_doy mp d :
  0 ≤ mp ≤ 11 → 1 ≤ d →
  (153 * mp + 2) / 5 + d - 1 < (153 * (mp + 1) + 2) / 5 →
  (5 * ((153 * mp + 2) / 5 + d - 1) + 2) / 153 = mp.
Proof.
  intros Hm Hd Hlt. Z.to_euclidean_division_equations; lia.
Qed.

Lemma civil_from_days_from_civil y m d :
  1 ≤ m ≤ 12 → 1 ≤ d ≤ daysInMonth y (m - 1) →
  civil_from_days (days_from_civil y m d) = (y, m, d).
Proof.
  intros Hm Hd.
  unfold days_from_civil.
  set (y' := if m <=? 2 then y - 1 else y).
  set (era := y' / 400). set (yoe := y' - era * 400).
  set (mp := if 2 <? m then m - 3 else m + 9).
  set (doy := (153 * mp + 2) / 5 + d - 1).
  assert (0 ≤ yoe ≤ 399) as Hyoe by (subst yoe era; Z.to_euclidean_division_equations; lia).
  assert (0 ≤ mp ≤ 11) as Hmp by (subst mp; destruct (Z.ltb_spec 2 m); lia).
  assert (doy < (153 * (mp + 1) + 2) / 5 ∧
          (doy ≤ 364 ∨ (doy = 365 ∧ yoe mod 4 = 3 ∧ (yoe mod 100 ≠ 99 ∨ yoe = 399)))) as [Hdoy Hlast].
  { unfold daysInMonth in Hd.
    assert (isLeapYearIndex y = true → m = 2 → yoe mod 4 = 3 ∧ (yoe mod 100 ≠ 99 ∨ yoe = 399)) as Hleap.
    { intros Hl%isLeapYearIndex_spec ->. subst yoe era y'. simpl.
      Z.to_euclidean_division_equations; lia. }
    assert (m = 1 ∨ m = 2 ∨ m = 3 ∨ m = 4 ∨ m = 5 ∨ m = 6 ∨ m = 7 ∨ m = 8
            ∨ m = 9 ∨ m = 10 ∨ m = 11 ∨ m = 12) as Hc by lia.
    subst doy mp.
    repeat (destruct Hc as [Hc|Hc]); subst m; simpl in Hd |- *;
      try (destruct (isLeapYearIndex y); [specialize (Hleap eq_refl eq_refl)|clear Hleap]);
      (Z.to_euclidean_division_equations; lia). }
  destruct (yoe_of_doe yoe doy Hyoe ltac:(subst doy; Z.to_euclidean_division_equations; lia) Hlast)
    as [Hy Hdoe].
  set (doe := yoe * 365 + yoe / 4 - yoe / 100 + doy) in *.
  assert ((era * 146097 + doe - 719468 + 719468) / 146097 = era) as Hera
    by (Z.to_euclidean_division_equations; lia).
  unfold civil_from_days. cbv zeta. rewrite Hera.
  replace (era * 146097 + doe - 719468 + 719468 - era * 146097) with doe by lia.
  rewrite Hy.
  replace (doe - (365 * yoe + yoe / 4 - yoe / 100)) with doy by (subst doe; lia).
  assert ((5 * doy + 2) / 153 = mp) as -> by (subst doy; apply month_of_doy; lia).
  subst doy. replace ((153 * mp + 2) / 5 + d - 1 - (153 * mp + 2) / 5 + 1) with d by lia.
  subst mp yoe era y'.
  destruct (Z.ltb_spec 2 m), (Z.leb_spec m 2); try lia.
  - destruct (Z.ltb_spec (m - 3) 10); [|lia].
    destruct (Z.leb_spec (m - 3 + 3) 2); [lia|]. repeat f_equal; lia.
  - destruct (Z.ltb_spec (m + 9) 10); [lia|].
    destruct (Z.leb_spec (m + 9 - 9) 2); [|lia]. repeat f_equal; lia.
Qed.

Lemma doy_of_doe doe :
  0 ≤ doe ≤ 146096 →
  let yoe := (doe - doe / 1460 + doe / 36524 - doe / 146096) / 365 in
  let doy := doe - (365 * yoe + yoe / 4 - yoe / 100) in
  0 ≤ yoe ≤ 399 ∧ 0 ≤ doy
  ∧ (doy ≤ 364 ∨ (doy = 365 ∧ yoe mod 4 = 3 ∧ (yoe mod 100 ≠ 99 ∨ yoe = 399))).
Proof.
  intros Hd yoe doy. subst doy yoe.
  Z.to_euclidean_division_equations; lia.
Qed.

Lemma civil_from_days_valid z y m d :
  civil_from_days z = (y, m, d) →
  1 ≤ m ≤ 12 ∧ 1 ≤ d ≤ daysInMonth y (m - 1) ∧ days_from_civil y m d = z.
Proof.
  unfold civil_from_days. cbv zeta.
  set (era := (z + 719468) / 146097).
  set (doe := z + 719468 - era * 146097).
  assert (0 ≤ doe ≤ 146096) as Hdoe
    by (subst doe era; Z.to_euclidean_division_equations; lia).
  destruct (doy_of_doe doe Hdoe) as (Hyoe & Hdoy & Hlast).
  set (yoe := (doe - doe / 1460 + doe / 36524 - doe / 146096) / 365) in *.
  set (doy := doe - (365 * yoe + yoe / 4 - yoe / 100)) in *.
  set (mp := (5 * doy + 2) / 153).
  assert (0 ≤ mp ≤ 11) as Hmp by (subst mp; Z.to_euclidean_division_equations; lia).
  intros [= <- <- <-].
  assert (mp = 0 ∨ mp = 1 ∨ mp = 2 ∨ mp = 3 ∨ mp = 4 ∨ mp = 5 ∨ mp = 6 ∨ mp = 7
          ∨ mp = 8 ∨ mp = 9 ∨ mp = 10 ∨ mp = 11) as Hc by lia.
  assert (mp = (5 * doy + 2) / 153) as Hmpdef by done.
  clearbody mp.
  assert (isLeapYearIndex (yoe + era * 400 + 1) = true
          ↔ (yoe mod 4 = 3 ∧ (yoe mod 100 ≠ 99 ∨ yoe = 399))) as Hleap.
  { rewrite isLeapYearIndex_spec. Z.to_euclidean_division_equations; lia. }
  unfold days_from_civil, daysInMonth. cbv zeta.
  repeat (destruct Hc as [Hc|Hc]); subst mp; simpl;
    (split; [lia|]); (split; [|subst doy doe; Z.to_euclidean_division_equations; lia]);
    try (Z.to_euclidean_division_equations; lia).
  destruct (isLeapYearIndex (yoe + era * 400 + 1)) eqn:Hl.
  - Z.to_euclidean_division_equations; lia.
  - assert (¬ (yoe mod 4 = 3 ∧ (yoe mod 100 ≠ 99 ∨ yoe = 399))) as Hn
      by (rewrite <- Hleap; congruence).
    Z.to_euclidean_division_equations; lia.
Qed.

(** *** Digits and padding *)

Lemma take_digits_app ds rest :
  all_digits ds = true →
  take_digits (String.length ds) (ds +:+ rest) = (ds, rest).
Proof.
  induction ds as [|c ds IH]; simpl.
  - intros _. by destruct rest.
  - intros [Hc Hds]%andb_true_iff. rewrite Hc, (IH Hds). done.
Qed.

Lemma pads_well_4 n : 0 ≤ n ≤ 9999 → pads_well 4 n = true.
Proof.
  intros Hn.
  assert (forallb (pads_well 4) (seqZ 0 10000) = true) as Hall by by vm_compute.
  rewrite forallb_forall in Hall. apply Hall.
  apply list_elem_of_In, elem_of_seqZ. lia.
Qed.

Lemma pads_well_2 n : 0 ≤ n ≤ 99 → pads_well 2 n = true.
Proof.
  intros Hn.
  assert (forallb (pads_well 2) (seqZ 0 100) = true) as Hall by by vm_compute.
  rewrite forallb_forall in Hall. apply Hall.
  apply list_elem_of_In, elem_of_seqZ. lia.
Qed.

Lemma parseNDigits_padded width n rest :
  (0 < width)%nat → pads_well width n = true →
  parseNDigits width (addLeadingZeros n width +:+ rest) = Some (n, rest).
Proof.
  unfold pads_well. cbv zeta.
  intros Hw [[Hlen%Nat.eqb_eq Hdig]%andb_true_iff Hval%Z.eqb_eq]%andb_true_iff.
  unfold parseNDigits. rewrite <- Hlen at 1. rewrite take_digits_app by done.
  destruct (addLeadingZeros n width); simpl in *; [lia|]. by rewrite Hval.
Qed.

Lemma digits_value_acc acc s :
  digits_value acc s = acc * 10 ^ Z.of_nat (String.length s) + digits_value 0 s.
Proof.
  revert acc. induction s as [|c s IH]; intros acc; simpl String.length.
  - simpl. lia.
  - cbn [digits_value]. rewrite (IH (10 * acc + digit_value c)), (IH (10 * 0 + digit_value c)).
    rewrite Nat2Z.inj_succ, Z.pow_succ_r by lia. lia.
Qed.

Lemma is_digit_value c : is_digit c = true → 0 ≤ digit_value c ≤ 9.
Proof.
  unfold is_digit, digit_value. cbv zeta.
  intros [?%Z.leb_le ?%Z.leb_le]%andb_true_iff. lia.
Qed.

Lemma digits_value_bound s :
  all_digits s = true → 0 ≤ digits_value 0 s < 10 ^ Z.of_nat (String.length s).
Proof.
  induction s as [|c s IH]; simpl String.length.
  - intros _. simpl. lia.
  - cbn [all_digits digits_value]. intros [Hc%is_digit_value Hs%IH]%andb_true_iff.
    rewrite digits_value_acc, Nat2Z.inj_succ, Z.pow_succ_r by lia.
    nia.
Qed.

Lemma digit_value_inj c c' : digit_value c = digit_value c' → c = c'.
Proof.
  unfold digit_value. intros H.
  rewrite <- (ascii_nat_embedding c), <- (ascii_nat_embedding c').
  f_equal. lia.
Qed.

Lemma digits_value_inj a b :
  all_digits a = true → all_digits b = true →
  String.length a = String.length b →
  digits_value 0 a = digits_value 0 b → a = b.
Proof.
  revert b. induction a as [|c a IH]; intros [|c' b]; try done.
  cbn [all_digits digits_value String.length].
  intros [Hc Ha]%andb_true_iff [Hc' Hb]%andb_true_iff [= Hlen].
  rewrite (digits_value_acc _ a), (digits_value_acc _ b), Hlen.
  pose proof (digits_value_bound a Ha) as Hba.
  pose proof (digits_value_bound b Hb) as Hbb.
  rewrite Hlen in Hba.
  apply is_digit_value in Hc, Hc'.
  set (P := 10 ^ Z.of_nat (String.length b)) in *.
  intros Heq.
  assert (digit_value c = digit_value c') as Hd by nia.
  rewrite (digit_value_inj _ _ Hd). f_equal. apply IH; try done. nia.
Qed.

Lemma addLeadingZeros_digits width s :
  (width = 2 ∨ width = 4)%nat →
  String.length s = width → all_digits s = true →
  addLeadingZeros (digits_value 0 s) width = s.
Proof.
  intros Hw Hlen Hs.
  pose proof (digits_value_bound s Hs) as Hb. rewrite Hlen in Hb.
  assert (pads_well width (digits_value 0 s) = true) as Hp.
  { destruct Hw as [-> | ->]; [apply pads_well_2|apply pads_well_4];
      simpl in Hb; lia. }
  unfold pads_well in Hp. cbv zeta in Hp.
  apply andb_true_iff in Hp as [[Hl%Nat.eqb_eq Hd]%andb_true_iff Hv%Z.eqb_eq].
  apply digits_value_inj; try done. congruence.
Qed.

Lemma year_in_range z y m d :
  civil_from_days z = (y, m, d) → -719162 ≤ z < 2932897 → 1 ≤ y ≤ 9999.
Proof.
  intros (Hm & Hd & <-)%civil_from_days_valid.
  assert (1 ≤ d ≤ 31) as Hd31.
  { unfold daysInMonth in Hd. repeat case_match; lia. }
  clear Hd. unfold days_from_civil. cbv zeta.
  set (y' := if m <=? 2 then y - 1 else y).
  set (mp := if 2 <? m then m - 3 else m + 9).
  assert ((m ≤ 2 ∧ y' = y - 1 ∧ mp = m + 9) ∨ (2 < m ∧ y' = y ∧ mp = m - 3))
    as Hcase.
  { subst y' mp. destruct (Z.leb_spec m 2), (Z.ltb_spec 2 m); lia. }
  clearbody y' mp.
  set (era := y' / 400).
  assert (y' = 400 * era + (y' - era * 400) ∧ 0 ≤ y' - era * 400 ≤ 399) as [Hy' Hyoe]
    by (subst era; Z.to_euclidean_division_equations; lia).
  clearbody era. set (yoe := y' - era * 400) in *. clearbody yoe.
  intros Hz.
  assert (era ≤ -1 ∨ era = 0 ∨ (1 ≤ era ≤ 23) ∨ era = 24 ∨ 25 ≤ era) as Hera by lia.
  destruct Hera as [?|[?|[?|[?|?]]]];
    Z.to_euclidean_division_equations; lia.
Qed.

Lemma append_empty_r s : (s +:+ EmptyString)%string = s.
Proof.
  induction s as [|c s IH]; [done|].
  change (String c (s +:+ EmptyString) = String c s). by rewrite IH.
Qed.

Lemma parse_after_format_day t s :
  -719162 * msPerDay ≤ t < 2932897 * msPerDay →
  formatGTFSDate (Time t) = Some s →
  parseGTFSDate s = Time (dayNumber t * msPerDay).
Proof.
  intros Ht. unfold formatGTFSDate, format_yyyyMMdd.
  destruct (civil_from_days (dayNumber t)) as [[y m] d] eqn:Hc.
  assert (-719162 ≤ dayNumber t < 2932897) as Hday.
  { unfold dayNumber, msPerDay in *. Z.to_euclidean_division_equations; lia. }
  pose proof (year_in_range _ _ _ _ Hc Hday) as Hy.
  apply civil_from_days_valid in Hc as (Hm & Hd & Hz).
  destruct (Z.ltb_spec 0 y); [|lia]. intros [= <-].
  assert (d ≤ 31) as Hd31.
  { unfold daysInMonth in Hd. repeat case_match; lia. }
  unfold parseGTFSDate, parse_yyyyMMdd.
  rewrite parseNDigits_padded by (lia || (apply pads_well_4; lia)).
  rewrite parseNDigits_padded by (lia || (apply pads_well_2; lia)).
  rewrite <- (append_empty_r (addLeadingZeros d 2)).
  rewrite parseNDigits_padded by (lia || (apply pads_well_2; lia)).
  cbn [all_whitespace negb].
  destruct (Z.ltb_spec 0 y); [|lia]. cbn [negb].
  destruct (Z.leb_spec 0 (m - 1)); [|lia].
  destruct (Z.leb_spec (m - 1) 11); [|lia]. cbn [andb negb].
  destruct (Z.leb_spec 1 d); [|lia].
  destruct (Z.leb_spec d (daysInMonth y (m - 1))); [|lia]. cbn [andb negb].
  replace (m - 1 + 1) with m by lia. by rewrite Hz.
Qed.

(** X1: reading back what was written.  A date of the years 1 to 9999 that
    [formatGTFSDate] writes as [s] is read by [parseGTFSDate] as the local
    midnight of the same day. *)
Theorem parse_after_format t s :
  -719162 * msPerDay ≤ t < 2932897 * msPerDay →
  formatGTFSDate (Time t) = Some s →
  parseGTFSDate s = Time (dayNumber t * msPerDay).
Proof.
  apply parse_after_format_day.
Qed.

Lemma parse_after_format_witness :
  parseGTFSDate "20240704" = Time (dayNumber 1720094400000 * msPerDay).
Proof.
  apply (parse_after_format 1720094400000 "20240704");
    [unfold msPerDay; lia | reflexivity].
Defined.

Lemma canonical_split s :
  canonical_date s →
  ∃ ys ms ds,
    s = (ys +:+ ms +:+ ds)%string
    ∧ String.length ys = 4%nat ∧ String.length ms = 2%nat
    ∧ String.length ds = 2%nat
    ∧ all_digits ys = true ∧ all_digits ms = true ∧ all_digits ds = true.
Proof.
  intros [Hlen Hdig].
  do 8 (destruct s as [|? s]; [done|]). destruct s; [|done].
  cbn [all_digits] in Hdig. repeat (apply andb_true_iff in Hdig as [? Hdig]).
  eexists (String _ (String _ (String _ (String _ EmptyString)))),
          (String _ (String _ EmptyString)), (String _ (String _ EmptyString)).
  split; [reflexivity|]. cbn [all_digits String.length].
  repeat match goal with
         | H : is_digit _ = true |- _ => rewrite H; clear H
         end.
  done.
Qed.

Lemma parseNDigits_digits ds rest :
  ds ≠ EmptyString → all_digits ds = true →
  parseNDigits (String.length ds) (ds +:+ rest) = Some (digits_value 0 ds, rest).
Proof.
  intros Hne Hd. unfold parseNDigits. rewrite take_digits_app by done.
  by destruct ds.
Qed.

Lemma format_after_parse_text s t :
  canonical_date s →
  parseGTFSDate s = Time t →
  formatGTFSDate (Time t) = Some s.
Proof.
  intros (ys & ms & ds & -> & Hly & Hlm & Hld & Hys & Hms & Hds)%canonical_split.
  unfold parseGTFSDate, parse_yyyyMMdd.
  rewrite <- Hly at 1. rewrite parseNDigits_digits by (done || by destruct ys).
  rewrite <- Hlm at 1. rewrite parseNDigits_digits by (done || by destruct ms).
  rewrite <- (append_empty_r ds) at 1.
  rewrite <- Hld at 1. rewrite parseNDigits_digits by (done || by destruct ds).
  cbn [all_whitespace negb].
  set (y := digits_value 0 ys). set (mm := digits_value 0 ms).
  set (dd := digits_value 0 ds).
  destruct (Z.ltb_spec 0 y) as [Hy|]; [|done]. cbn [negb].
  destruct (Z.leb_spec 0 (mm - 1)) as [Hm0|]; [|done].
  destruct (Z.leb_spec (mm - 1) 11) as [Hm11|]; [|done]. cbn [andb negb].
  destruct (Z.leb_spec 1 dd) as [Hd1|]; [|done].
  destruct (Z.leb_spec dd (daysInMonth y (mm - 1))) as [Hdm|]; [|done].
  cbn [andb negb]. intros [= <-].
  unfold formatGTFSDate, format_yyyyMMdd, dayNumber.
  rewrite Z.div_mul by done.
  replace (mm - 1 + 1) with mm by lia.
  rewrite civil_from_days_from_civil by lia.
  destruct (Z.ltb_spec 0 y); [|lia].
  subst y mm dd.
  by rewrite !addLeadingZeros_digits by (done || auto).
Qed.

(** X2: writing back what was read.  When a text of eight digits is read by
    [parseGTFSDate] as a valid date, [formatGTFSDate] writes that date as the
    same text. *)
Theorem format_after_parse s t :
  canonical_date s →
  parseGTFSDate s = Time t →
  formatGTFSDate (Time t) = Some s.
Proof.
  apply format_after_parse_text.
Qed.

Lemma format_after_parse_witness :
  formatGTFSDate (Time 1720051200000) = Some "20240704"%string.
Proof.
  apply (format_after_parse "20240704" 1720051200000);
    [split; reflexivity | reflexivity].
Defined.

(** [formatGTFSDate] reads the day of a date only. *)
Lemma formatGTFSDate_day t :
  formatGTFSDate (Time (dayNumber t * msPerDay)) = formatGTFSDate (Time t).
Proof.
  unfold formatGTFSDate, format_yyyyMMdd, dayNumber.
  by rewrite Z.div_mul.
Qed.

(** The text that [formatGTFSDate] gives a date is the one text of eight
    digits that [parseGTFSDate] reads as the day of that date. *)
Lemma date_text_of_day t dateString s :
  formatGTFSDate (Time t) = Some dateString →
  canonical_date s →
  parseGTFSDate s = Time (dayNumber t * msPerDay) →
  s = dateString.
Proof.
  intros Hf Hs Hp. apply (format_after_parse_text _ _ Hs) in Hp.
  rewrite formatGTFSDate_day, Hf in Hp. by injection Hp.
Qed.

(** ** The calendar resolver *)

(** *** The two loops *)

Section Loops.

Context (gtfsData : GTFSData) (date : Date) (dateString : string).

Lemma calendar_step_outcome st c :
  calendar_step gtfsData date dateString st c
  = apply_outcome (row_outcome gtfsData date dateString c) st.
Proof.
  unfold calendar_step, row_outcome, decision_table, exception_kind, baseActive.
  destruct (find _ _) as [e|]; [|by destruct (_ && _)].
  destruct (exception_type e =? 1); [done|].
  destruct (exception_type e =? 2); [|done].
  by destruct (_ && _).
Qed.

Lemma calendar_loop cals st :
  fold_left (calendar_step gtfsData date dateString) cals st
  = {| active := active st
         ++ flat_map (λ c, active_entry (row_outcome gtfsData date dateString c))
                     cals;
       excluded := excluded st
         ++ flat_map (λ c, excluded_entry (row_outcome gtfsData date dateString c))
                     cals |}.
Proof.
  revert st. induction cals as [|c cals IH]; intros st; simpl.
  - rewrite !app_nil_r. by destruct st.
  - rewrite IH, calendar_step_outcome.
    destruct (row_outcome gtfsData date dateString c); simpl;
      by rewrite <- ?app_assoc.
Qed.

Lemma elem_of_calendarServiceIds sid :
  sid ∈ (list_to_set (map service_id (calendars gtfsData)) : gset string)
  ↔ in_calendars gtfsData sid.
Proof.
  rewrite elem_of_list_to_set. unfold in_calendars.
  rewrite list_elem_of_In, in_map_iff.
  setoid_rewrite list_elem_of_In.
  split; intros (c & ? & ?); by exists c.
Qed.

Lemma exception_step_entry addedIds lists cd :
  (exception_step dateString
     (list_to_set (map service_id (calendars gtfsData))) (addedIds, lists) cd).2
  = {| active := active lists ++ exception_only_entry gtfsData dateString cd;
       excluded := excluded lists |}.
Proof.
  unfold exception_step, exception_only_entry, exception_kind.
  destruct (String.eqb_spec (cd_date cd) dateString) as [Hd|Hd]; simpl.
  - case_bool_decide as Hin; rewrite elem_of_calendarServiceIds in Hin.
    + rewrite decide_False by tauto.
      simpl. rewrite app_nil_r. by destruct lists.
    + rewrite decide_True by done.
      destruct (exception_type cd =? 1); [done|].
      destruct (exception_type cd =? 2); simpl;
        rewrite app_nil_r; by destruct lists.
  - rewrite decide_False by tauto.
    simpl. rewrite app_nil_r. by destruct lists.
Qed.

Lemma exception_loop cds addedIds lists :
  (fold_left (exception_step dateString
                (list_to_set (map service_id (calendars gtfsData))))
             cds (addedIds, lists)).2
  = {| active := active lists
         ++ flat_map (exception_only_entry gtfsData dateString) cds;
       excluded := excluded lists |}.
Proof.
  revert addedIds lists. induction cds as [|cd cds IH]; intros addedIds lists.
  - simpl. rewrite app_nil_r. by destruct lists.
  - cbn [fold_left flat_map].
    pose proof (exception_step_entry addedIds lists cd) as Hs.
    destruct (exception_step _ _ _ cd) as [addedIds' lists'].
    simpl in Hs. subst lists'. rewrite IH. simpl. by rewrite <- app_assoc.
Qed.

Lemma getCalendarStatusForDate_eq :
  formatGTFSDate date = Some dateString →
  getCalendarStatusForDate gtfsData date
  = Some (resolved gtfsData date dateString).
Proof.
  intros Hf. unfold getCalendarStatusForDate. rewrite Hf. simpl.
  pose proof (exception_loop (calendarDates gtfsData) ∅
    (fold_left (calendar_step gtfsData date dateString) (calendars gtfsData)
               {| active := []; excluded := [] |})) as Hl.
  destruct (fold_left (exception_step _ _) _ _) as [ids lists].
  simpl in Hl. subst lists. rewrite calendar_loop. done.
Qed.

End Loops.

(** *** The exception that decides

    [find] answers the first matching row, and nothing exactly when no row
    matches. *)

Section FirstException.

Context (c : GTFSCalendar) (dateString : string).

Lemma exception_matches_spec cd :
  exception_matches c dateString cd = true ↔ Matches c dateString cd.
Proof.
  unfold exception_matches, Matches.
  rewrite andb_true_iff, !String.eqb_eq. done.
Qed.

Lemma find_FirstMatch exceptions e :
  find (exception_matches c dateString) exceptions = Some e
  ↔ FirstMatch exceptions c dateString e.
Proof.
  unfold FirstMatch. induction exceptions as [|cd cds IH]; simpl.
  - split; [done|]. intros ([|??] & ? & ? & _); done.
  - destruct (exception_matches c dateString cd) eqn:Hm.
    + apply exception_matches_spec in Hm. split.
      * intros [= ->]. exists [], cds. split; [done|]. split; [done|constructor].
      * intros (before & after & Heq & He & Hnone).
        destruct before as [|b before]; simplify_eq/=; [done|].
        by apply Forall_cons in Hnone as [? _].
    + assert (¬ Matches c dateString cd) as Hn.
      { rewrite <- exception_matches_spec. by rewrite Hm. }
      rewrite IH. split.
      * intros (before & after & -> & He & Hnone).
        exists (cd :: before), after.
        split; [done|]. split; [done|]. by constructor.
      * intros (before & after & Heq & He & Hnone).
        destruct before as [|b before]; simplify_eq/=; [done|].
        apply Forall_cons in Hnone as [_ ?]. by exists before, after.
Qed.

Lemma find_NoMatch exceptions :
  find (exception_matches c dateString) exceptions = None
  ↔ NoMatch exceptions c dateString.
Proof.
  unfold NoMatch. induction exceptions as [|cd cds IH]; simpl.
  - split; [constructor|done].
  - destruct (exception_matches c dateString cd) eqn:Hm.
    + apply exception_matches_spec in Hm. split; [done|].
      intros [? _]%Forall_cons. done.
    + rewrite IH, Forall_cons.
      assert (¬ Matches c dateString cd).
      { rewrite <- exception_matches_spec. by rewrite Hm. }
      tauto.
Qed.

End FirstException.

(** Opening step of the statements on [getCalendarStatusForDate] at a valid
    date: name the date string and give the row-by-row result. *)
Ltac resolve_on_valid_date gtfsData t dateString :=
  let Hf := fresh "Hf" in
  destruct (formatGTFSDate_valid t) as [dateString Hf];
  exists dateString, (resolved gtfsData (Time t) dateString);
  split; [exact Hf|];
  split; [by apply getCalendarStatusForDate_eq|].

Lemma decision_table_cases gtfsData date dateString c :
  (NoMatch (calendarDates gtfsData) c dateString →
     row_outcome gtfsData date dateString c
     = if baseActive c date then ActiveEntry (regular_status c) else NoEntry)
  ∧ (∀ e, FirstMatch (calendarDates gtfsData) c dateString e →
       exception_type e = 1 →
       row_outcome gtfsData date dateString c = ActiveEntry (added_status c))
  ∧ (∀ e, FirstMatch (calendarDates gtfsData) c dateString e →
       exception_type e = 2 →
       row_outcome gtfsData date dateString c
       = if baseActive c date then ExcludedEntry (removed_status c)
         else NoEntry).
Proof.
  unfold row_outcome, decision_table, exception_kind.
  split; [|split].
  - intros Hn%find_NoMatch. by rewrite Hn.
  - intros e He%find_FirstMatch Ht. by rewrite He, Ht.
  - intros e He%find_FirstMatch Ht. by rewrite He, Ht.
Qed.

(** C1, as stated, fails: the range test is not the inclusive range from
    [start_date] to [end_date].  The row from 2024-12-31 back to 2024-01-01
    has no exception on 2024-07-04, a day that is not from its [start_date]
    to its [end_date], and yet gives an active entry that day.  And at noon
    of 2024-12-31, a Tuesday and the [end_date] of the weekday row, that row
    gives no entry, the range ending at the midnight that begins the day. *)
Lemma reversed_row_listed_active :
  parseGTFSDate (start_date reversed_row) = Time 1735603200000
  ∧ parseGTFSDate (end_date reversed_row) = Time 1704067200000
  ∧ july_4th_2024 = Time 1720051200000
  ∧ ¬ (1735603200000 ≤ 1720051200000 ≤ 1704067200000)
  ∧ calendarDates reversed_dataset = []
  ∧ getCalendarStatusForDate reversed_dataset july_4th_2024
    = Some {| active := [ {| status_service_id := "REV";
                             isActive := true;
                             isException := false;
                             exceptionType := None;
                             calendar := Some reversed_row |} ];
              excluded := [] |}
  ∧ formatGTFSDate noon_of_2024_12_31 = Some (end_date weekday_row)
  ∧ getDay noon_of_2024_12_31 = Some 2
  ∧ tuesday weekday_row = true
  ∧ calendarDates weekday_dataset = []
  ∧ getCalendarStatusForDate weekday_dataset noon_of_2024_12_31
    = Some {| active := []; excluded := [] |}.
Proof.
  split; [by vm_compute|]. split; [by vm_compute|]. split; [done|].
  split; [lia|]. repeat split; by vm_compute.
Qed.

(** C1, amended.  On every dataset and every (valid) date,
    [getCalendarStatusForDate] returns, and each row of [calendars],
    duplicates included, contributes in order the entry the decision table
    gives it: the active list is the rows' active entries followed by the
    entries of exception-only services, the excluded list is the rows'
    excluded entries.  An exception row matches a calendar row on the date
    when it has the service id of the row and its date is the text of the
    day of the date, which is the one text of eight digits that reads as
    that day.  For a row [c]: when no exception row matches, an active entry
    with [isException = false] if [baseActive] and nothing otherwise; when
    the first matching exception row, in the order of [calendarDates], is
    of type 1 (Added), an active entry with [isException = true] and
    [exceptionType = added] whatever [baseActive]; when it is of type 2
    (Removed), an excluded entry if [baseActive] and nothing otherwise.
    [baseActive] is the range test and the weekday test together.  The
    weekday test reads the flag of the row for the day of the week of the
    date.  The range test fails when one of the two dates of the row does
    not parse, and otherwise holds exactly when the time value of the date
    is between the midnights that begin [start_date] and [end_date], the
    two taken in either order and both included. *)
Theorem resolve_decision_table (gtfsData : GTFSData) (t : Z) :
  ∃ dateString lists,
    formatGTFSDate (Time t) = Some dateString
    ∧ getCalendarStatusForDate gtfsData (Time t) = Some lists
    ∧ active lists
      = flat_map (λ c, active_entry (row_outcome gtfsData (Time t) dateString c))
                 (calendars gtfsData)
        ++ flat_map (exception_only_entry gtfsData dateString)
                    (calendarDates gtfsData)
    ∧ excluded lists
      = flat_map (λ c, excluded_entry (row_outcome gtfsData (Time t) dateString c))
                 (calendars gtfsData)
    ∧ (∀ s, canonical_date s →
            parseGTFSDate s = Time (dayNumber t * msPerDay) → s = dateString)
    ∧ (-719162 * msPerDay ≤ t < 2932897 * msPerDay →
       parseGTFSDate dateString = Time (dayNumber t * msPerDay))
    ∧ ∀ c : GTFSCalendar,
        (NoMatch (calendarDates gtfsData) c dateString →
           row_outcome gtfsData (Time t) dateString c
           = if baseActive c (Time t)
             then ActiveEntry {| status_service_id := service_id c;
                                 isActive := true;
                                 isException := false;
                                 exceptionType := None;
                                 calendar := Some c |}
             else NoEntry)
        ∧ (∀ e, FirstMatch (calendarDates gtfsData) c dateString e →
             exception_type e = 1 →
             row_outcome gtfsData (Time t) dateString c
             = ActiveEntry {| status_service_id := service_id c;
                              isActive := true;
                              isException := true;
                              exceptionType := Some added;
                              calendar := Some c |})
        ∧ (∀ e, FirstMatch (calendarDates gtfsData) c dateString e →
             exception_type e = 2 →
             row_outcome gtfsData (Time t) dateString c
             = if baseActive c (Time t)
               then ExcludedEntry {| status_service_id := service_id c;
                                     isActive := false;
                                     isException := true;
                                     exceptionType := Some removed;
                                     calendar := Some c |}
               else NoEntry)
        ∧ baseActive c (Time t)
          = isDateInCalendarRange c (Time t)
            && isCalendarActiveOnDayOfWeek c (Time t)
        ∧ isCalendarActiveOnDayOfWeek c (Time t)
          = match (dayNumber t + 4) mod 7 with
            | 0 => sunday c
            | 1 => monday c
            | 2 => tuesday c
            | 3 => wednesday c
            | 4 => thursday c
            | 5 => friday c
            | _ => saturday c
            end
        ∧ (unparseable c → isDateInCalendarRange c (Time t) = false)
        ∧ (∀ s e,
             parseGTFSDate (start_date c) = Time s →
             parseGTFSDate (end_date c) = Time e →
             isDateInCalendarRange c (Time t) = true
             ↔ Z.min s e ≤ t ≤ Z.max s e).
Proof.
  resolve_on_valid_date gtfsData t dateString.
  split; [done|]. split; [done|].
  split; [intros s; by apply date_text_of_day|].
  split; [intros Ht; by apply parse_after_format_day|].
  intros c.
  destruct (decision_table_cases gtfsData (Time t) dateString c)
    as (Hnone & Hadded & Hremoved).
  split; [exact Hnone|]. split; [exact Hadded|]. split; [exact Hremoved|].
  split; [done|]. split; [apply isCalendarActiveOnDayOfWeek_flag|].
  split; [apply unparseable_never_in_range|].
  intros s e Hs He. unfold isDateInCalendarRange. rewrite Hs, He.
  apply isWithinInterval_valid.
Qed.

(** The weekday service removed on 2024-07-04, a Thursday, and the holiday
    service added on that day. *)
Example holiday_resolution :
  getCalendarStatusForDate holiday_dataset july_4th_2024
  = Some {| active := [ {| status_service_id := "HOLIDAY";
                           isActive := true;
                           isException := true;
                           exceptionType := Some added;
                           calendar := None |} ];
            excluded := [removed_status weekday_row] |}
  ∧ getBaseCalendarsForDate holiday_dataset july_4th_2024
    = [regular_status weekday_row]
  ∧ getTripsForDate holiday_dataset july_4th_2024
    = Some [ {| trip := plain_trip "R1" "HOLIDAY" "T2";
                route := Some (plain_route "R1" "1") |} ].
Proof. by vm_compute. Qed.

(** Two rows with one service id are both evaluated. *)
Example duplicate_rows_resolution :
  getCalendarStatusForDate
    {| calendars := [weekday_row; weekday_row]; calendarDates := [];
       trips := []; routes := [] |} july_4th_2024
  = Some {| active := [regular_status weekday_row; regular_status weekday_row];
            excluded := [] |}.
Proof. by vm_compute. Qed.

Lemma resolve_decision_table_witness :
  row_outcome holiday_dataset (Time 1720051200000) "20240704" weekday_row
  = ExcludedEntry (removed_status weekday_row).
Proof.
  destruct (resolve_decision_table holiday_dataset 1720051200000)
    as (dateString & lists & Hf & _ & _ & _ & _ & _ & Hrow).
  vm_compute in Hf. injection Hf as <-.
  destruct (Hrow weekday_row) as (_ & _ & Hremoved & _).
  apply (Hremoved {| cd_service_id := "WD"; cd_date := "20240704";
                     exception_type := 2 |}).
  - exists [], [ {| cd_service_id := "HOLIDAY"; cd_date := "20240704";
                    exception_type := 1 |} ].
    split; [reflexivity|]. split; [split; reflexivity|constructor].
  - reflexivity.
Defined.

(** C2.  On every dataset and every (valid) date, the part of the active
    list that follows the calendar rows' entries holds, in the order of
    [calendarDates], one entry for each exception row whose date is the
    target date, whose service id is carried by no calendar row and whose
    type is 1 (Added): active, [isException = true],
    [exceptionType = added], no calendar.  Such a row of type 2 (Removed)
    contributes nothing, and no excluded entry is without a calendar.  The
    date of an exception row is the target date when it is the text of the
    day of the target date; a text of eight digits is that text exactly
    when it reads as that day. *)
Theorem exception_only_services (gtfsData : GTFSData) (t : Z) :
  ∃ dateString lists,
    formatGTFSDate (Time t) = Some dateString
    ∧ getCalendarStatusForDate gtfsData (Time t) = Some lists
    ∧ active lists
      = flat_map (λ c, active_entry (row_outcome gtfsData (Time t) dateString c))
                 (calendars gtfsData)
        ++ flat_map (exception_only_entry gtfsData dateString)
                    (calendarDates gtfsData)
    ∧ (∀ s, s ∈ excluded lists → calendar s ≠ None)
    ∧ (-719162 * msPerDay ≤ t < 2932897 * msPerDay →
       parseGTFSDate dateString = Time (dayNumber t * msPerDay))
    ∧ (∀ cd : GTFSCalendarDate,
         canonical_date (cd_date cd) →
         parseGTFSDate (cd_date cd) = Time (dayNumber t * msPerDay) →
         cd_date cd = dateString)
    ∧ ∀ cd : GTFSCalendarDate,
        cd_date cd = dateString →
        (∀ c, c ∈ calendars gtfsData → service_id c ≠ cd_service_id cd) →
        (exception_type cd = 1 →
           exception_only_entry gtfsData dateString cd
           = [ {| status_service_id := cd_service_id cd;
                  isActive := true;
                  isException := true;
                  exceptionType := Some added;
                  calendar := None |} ]
           ∧ (cd ∈ calendarDates gtfsData →
              {| status_service_id := cd_service_id cd;
                 isActive := true;
                 isException := true;
                 exceptionType := Some added;
                 calendar := None |} ∈ active lists))
        ∧ (exception_type cd = 2 →
             exception_only_entry gtfsData dateString cd = []).
Proof.
  resolve_on_valid_date gtfsData t dateString.
  split; [done|]. split; [|split; [|split]].
  - intros s. simpl. rewrite list_elem_of_In, in_flat_map.
    intros (c & _ & Hs).
    destruct (row_outcome gtfsData (Time t) dateString c) eqn:Ho;
      simpl in Hs; try done.
    destruct Hs as [<-|[]].
    unfold row_outcome, decision_table in Ho.
    destruct (find _ _) as [e|]; [|by destruct (baseActive _ _)].
    destruct (exception_kind e) as [[]|]; try done.
    destruct (baseActive _ _); by simplify_eq.
  - intros Ht. by apply parse_after_format_day.
  - intros cd. by apply date_text_of_day.
  - intros cd Hd Hnot.
    assert (¬ in_calendars gtfsData (cd_service_id cd)) as Hn.
    { intros (c & Hc & Heq). by apply (Hnot c). }
    unfold exception_only_entry, exception_kind.
    rewrite decide_True by done. split.
    + intros Ht. rewrite Ht. split; [done|].
      intros Hin. simpl. rewrite elem_of_app. right.
      rewrite list_elem_of_In, in_flat_map. exists cd.
      split; [by apply list_elem_of_In|].
      unfold exception_only_entry, exception_kind.
      rewrite decide_True by done. rewrite Ht. by left.
    + intros Ht. by rewrite Ht.
Qed.

(** The scenario of the holiday: the exception row that adds HOLIDAY on
    2024-07-04, a service that no calendar row carries, gives the active
    list of that day, asked for at 15:00, an entry without a calendar. *)
Lemma exception_only_services_witness :
  ∃ lists,
    getCalendarStatusForDate holiday_dataset (Time 1720105200000) = Some lists
    ∧ {| status_service_id := "HOLIDAY";
         isActive := true;
         isException := true;
         exceptionType := Some added;
         calendar := None |} ∈ active lists.
Proof.
  destruct (exception_only_services holiday_dataset 1720105200000)
    as (dateString & lists & _ & Hres & _ & _ & _ & Htext & Hrows).
  exists lists. split; [exact Hres|].
  apply (Hrows {| cd_service_id := "HOLIDAY"; cd_date := "20240704";
                  exception_type := 1 |}).
  - apply (Htext {| cd_service_id := "HOLIDAY"; cd_date := "20240704";
                    exception_type := 1 |}); [split; reflexivity | reflexivity].
  - intros c Hc. apply list_elem_of_singleton in Hc as ->. discriminate.
  - reflexivity.
  - right. left.
Defined.

(** C7.  On every dataset and every (valid) date, every entry of the
    excluded list is the Removed status of a calendar row [c] of the dataset
    that is [baseActive] on the date (in range, weekday flag set) and whose
    first matching exception row is of type 2 (Removed); so no entry of the
    excluded list refers to a calendar row that the base rule leaves
    inactive. *)
Theorem excluded_only_base_active (gtfsData : GTFSData) (t : Z) :
  ∃ dateString lists,
    formatGTFSDate (Time t) = Some dateString
    ∧ getCalendarStatusForDate gtfsData (Time t) = Some lists
    ∧ (∀ s, s ∈ excluded lists →
         ∃ c e,
           c ∈ calendars gtfsData
           ∧ s = {| status_service_id := service_id c;
                    isActive := false;
                    isException := true;
                    exceptionType := Some removed;
                    calendar := Some c |}
           ∧ isDateInCalendarRange c (Time t) = true
           ∧ isCalendarActiveOnDayOfWeek c (Time t) = true
           ∧ FirstMatch (calendarDates gtfsData) c dateString e
           ∧ exception_type e = 2)
    ∧ (∀ s c, s ∈ excluded lists → calendar s = Some c →
         baseActive c (Time t) = true).
Proof.
  resolve_on_valid_date gtfsData t dateString.
  assert (∀ s, s ∈ excluded (resolved gtfsData (Time t) dateString) →
    ∃ c e, c ∈ calendars gtfsData ∧ s = removed_status c
      ∧ isDateInCalendarRange c (Time t) = true
      ∧ isCalendarActiveOnDayOfWeek c (Time t) = true
      ∧ FirstMatch (calendarDates gtfsData) c dateString e
      ∧ exception_type e = 2) as Hex.
  { intros s. simpl. rewrite list_elem_of_In, in_flat_map.
    intros (c & Hc%list_elem_of_In & Hs).
    unfold row_outcome, decision_table in Hs.
    destruct (find _ _) as [e|] eqn:Hfind;
      [|by destruct (baseActive _ _)].
    unfold exception_kind in Hs.
    destruct (Z.eqb_spec (exception_type e) 1); [done|].
    destruct (Z.eqb_spec (exception_type e) 2); [|done].
    destruct (baseActive c (Time t)) eqn:Hb; [|done].
    destruct Hs as [<-|[]]. exists c, e.
    apply andb_true_iff in Hb as [? ?].
    by rewrite <- find_FirstMatch. }
  split; [exact Hex|].
  intros s c Hs Hcal. destruct (Hex s Hs) as (c' & e & _ & -> & Hr & Hw & _).
  simpl in Hcal. simplify_eq. unfold baseActive. by rewrite Hr, Hw.
Qed.

(** ** The base rule *)

Lemma base_loop date cals acc :
  fold_left (base_step date) cals acc
  = acc ++ map regular_status (filter (λ c, baseActive c date = true) cals).
Proof.
  revert acc. induction cals as [|c cals IH]; intros acc; simpl.
  - by rewrite app_nil_r.
  - rewrite IH. unfold base_step. fold (baseActive c date).
    rewrite filter_cons. destruct (baseActive c date) eqn:Hb.
    + rewrite decide_True by done. simpl. by rewrite <- app_assoc.
    + rewrite decide_False by done. done.
Qed.

(** C8, as stated, fails: the range test is not the inclusive range from
    [start_date] to [end_date].  The row from 2024-12-31 back to 2024-01-01
    is listed by [getBaseCalendarsForDate] on 2024-07-04, a day that is not
    from its [start_date] to its [end_date].  And at noon of 2024-12-31, a
    Tuesday and the [end_date] of the weekday row, that row is not listed,
    the range ending at the midnight that begins the day. *)
Lemma reversed_row_in_base :
  parseGTFSDate (start_date reversed_row) = Time 1735603200000
  ∧ parseGTFSDate (end_date reversed_row) = Time 1704067200000
  ∧ july_4th_2024 = Time 1720051200000
  ∧ ¬ (1735603200000 ≤ 1720051200000 ≤ 1704067200000)
  ∧ getBaseCalendarsForDate reversed_dataset july_4th_2024
    = [ {| status_service_id := "REV";
           isActive := true;
           isException := false;
           exceptionType := None;
           calendar := Some reversed_row |} ]
  ∧ formatGTFSDate noon_of_2024_12_31 = Some (end_date weekday_row)
  ∧ getDay noon_of_2024_12_31 = Some 2
  ∧ tuesday weekday_row = true
  ∧ getBaseCalendarsForDate weekday_dataset noon_of_2024_12_31 = [].
Proof.
  split; [by vm_compute|]. split; [by vm_compute|]. split; [done|].
  split; [lia|]. repeat split; by vm_compute.
Qed.

(** C8, amended.  On every dataset and every date,
    [getBaseCalendarsForDate] returns exactly the calendar rows for which
    the range test and the weekday test both hold, in the order of
    [calendars], each as an active status with [isException = false]; the
    result does not depend on [calendarDates] (nor on trips and routes), so
    that a row active by range and weekday is reported even when the dataset
    holds a Removed exception for it on that date.  The weekday test reads
    the flag of the row for the day of the week of the date.  The range test
    fails when one of the two dates of the row does not parse, and otherwise
    holds exactly when the time value of the date is between the midnights
    that begin [start_date] and [end_date], the two taken in either order
    and both included.  On an invalid date nothing is returned. *)
Theorem resolveBase_ignores_exceptions (gtfsData : GTFSData) (date : Date) :
  getBaseCalendarsForDate gtfsData date
  = map (λ c, {| status_service_id := service_id c;
                 isActive := true;
                 isException := false;
                 exceptionType := None;
                 calendar := Some c |})
        (filter (λ c, isDateInCalendarRange c date
                      && isCalendarActiveOnDayOfWeek c date = true)
                (calendars gtfsData))
  ∧ (∀ exceptions trips' routes',
       getBaseCalendarsForDate
         {| calendars := calendars gtfsData; calendarDates := exceptions;
            trips := trips'; routes := routes' |} date
       = getBaseCalendarsForDate gtfsData date)
  ∧ (∀ c, c ∈ calendars gtfsData →
       isDateInCalendarRange c date = true →
       isCalendarActiveOnDayOfWeek c date = true →
       {| status_service_id := service_id c;
          isActive := true;
          isException := false;
          exceptionType := None;
          calendar := Some c |} ∈ getBaseCalendarsForDate gtfsData date)
  ∧ (∀ c, unparseable c → isDateInCalendarRange c date = false)
  ∧ (date = InvalidDate → getBaseCalendarsForDate gtfsData date = [])
  ∧ (∀ c t,
       date = Time t →
       isCalendarActiveOnDayOfWeek c date
       = match (dayNumber t + 4) mod 7 with
         | 0 => sunday c
         | 1 => monday c
         | 2 => tuesday c
         | 3 => wednesday c
         | 4 => thursday c
         | 5 => friday c
         | _ => saturday c
         end
       ∧ ∀ s e,
           parseGTFSDate (start_date c) = Time s →
           parseGTFSDate (end_date c) = Time e →
           isDateInCalendarRange c date = true ↔ Z.min s e ≤ t ≤ Z.max s e).
Proof.
  unfold getBaseCalendarsForDate. split; [|split; [|split; [|split; [|split]]]].
  - by rewrite base_loop.
  - done.
  - intros c Hc Hr Hw. rewrite base_loop. simpl.
    apply (list_elem_of_fmap_2 regular_status).
    apply list_elem_of_filter. split; [|done].
    unfold baseActive. by rewrite Hr, Hw.
  - intros c. apply unparseable_never_in_range.
  - intros ->. rewrite base_loop.
    assert (filter (λ c, baseActive c InvalidDate = true) (calendars gtfsData)
            = []) as ->; [|done].
    induction (calendars gtfsData) as [|c cs IH]; [done|].
    rewrite filter_cons, IH. rewrite decide_False; [done|].
    unfold baseActive, isDateInCalendarRange.
    by rewrite isWithinInterval_invalid_date.
  - intros c t ->. split; [apply isCalendarActiveOnDayOfWeek_flag|].
    intros s e Hs He. unfold isDateInCalendarRange. rewrite Hs, He.
    apply isWithinInterval_valid.
Qed.

(** ** Rows whose dates do not parse or are out of order *)

(** An active entry that refers to a calendar row comes from that row: it
    is its regular status, the row being [baseActive], or its Added
    status. *)
Lemma active_entry_inv gtfsData date dateString c s :
  In s (active_entry (row_outcome gtfsData date dateString c)) →
  (s = regular_status c ∧ baseActive c date = true) ∨ s = added_status c.
Proof.
  unfold row_outcome, decision_table.
  destruct (find _ _) as [e|].
  - destruct (exception_kind e) as [[]|]; simpl; [| |done].
    + intros [<-|[]]. by right.
    + by destruct (baseActive c date).
  - destruct (baseActive c date); simpl; [|done].
    intros [<-|[]]. by left.
Qed.

Lemma excluded_entry_inv gtfsData date dateString c s :
  In s (excluded_entry (row_outcome gtfsData date dateString c)) →
  s = removed_status c ∧ baseActive c date = true.
Proof.
  unfold row_outcome, decision_table.
  destruct (find _ _) as [e|].
  - destruct (exception_kind e) as [[]|]; simpl; [done| |done].
    destruct (baseActive c date); simpl; [|done]. by intros [<-|[]].
  - by destruct (baseActive c date).
Qed.

Lemma exception_only_entry_inv gtfsData dateString cd s :
  In s (exception_only_entry gtfsData dateString cd) → s = added_only_status cd.
Proof.
  unfold exception_only_entry. case_decide; [|done].
  destruct (exception_kind cd) as [[]|]; simpl; try done. by intros [<-|[]].
Qed.

(** C3, as stated, fails: a row with [start_date] after [end_date] is in
    range on 2024-07-04 and gives an active entry (with the older
    [isWithinInterval] the range test of this row throws); and on an invalid
    target date [getCalendarStatusForDate] throws. *)
Lemma reversed_row_matches :
  parseGTFSDate (start_date reversed_row) = Time 1735603200000
  ∧ parseGTFSDate (end_date reversed_row) = Time 1704067200000
  ∧ isDateInCalendarRange reversed_row july_4th_2024 = true
  ∧ isWithinInterval_v2 july_4th_2024
      (parseGTFSDate (start_date reversed_row))
      (parseGTFSDate (end_date reversed_row)) = None
  ∧ getCalendarStatusForDate reversed_dataset july_4th_2024
    = Some {| active := [regular_status reversed_row]; excluded := [] |}
  ∧ getBaseCalendarsForDate reversed_dataset july_4th_2024
    = [regular_status reversed_row]
  ∧ getCalendarStatusForDate reversed_dataset InvalidDate = None.
Proof. repeat split; vm_compute; reflexivity. Qed.

(** C3, amended.  On every dataset, [getCalendarStatusForDate] returns on
    every valid target date and [getBaseCalendarsForDate] on every date,
    with no entry on an invalid one.  A calendar row with a date that does
    not parse is in range on no date: it gives no entry to
    [getBaseCalendarsForDate], no excluded entry, and no active entry other
    than through an Added exception.  A row whose two dates parse is in
    range exactly on the time values between the earlier and the later of
    the two, whichever of [start_date] and [end_date] that is. *)
Theorem bad_rows (gtfsData : GTFSData) (t : Z) :
  (∃ lists,
     getCalendarStatusForDate gtfsData (Time t) = Some lists
     ∧ ∀ c s, unparseable c → calendar s = Some c →
         (s ∉ excluded lists)
         ∧ (s ∈ active lists →
            isException s = true ∧ exceptionType s = Some added))
  ∧ (∀ date c, unparseable c →
       isDateInCalendarRange c date = false
       ∧ ∀ s, s ∈ getBaseCalendarsForDate gtfsData date → calendar s ≠ Some c)
  ∧ (∀ c s e t',
       parseGTFSDate (start_date c) = Time s →
       parseGTFSDate (end_date c) = Time e →
       (isDateInCalendarRange c (Time t') = true
        ↔ (Z.min s e ≤ t' ≤ Z.max s e)))
  ∧ getBaseCalendarsForDate gtfsData InvalidDate = [].
Proof.
  split; [|split; [|split]]; cycle 3.
  { unfold getBaseCalendarsForDate. rewrite base_loop. simpl.
    induction (calendars gtfsData) as [|c cals IH]; [done|].
    rewrite filter_cons, decide_False; [done|].
    unfold baseActive, isDateInCalendarRange.
    by rewrite isWithinInterval_invalid_date. }
  - destruct (formatGTFSDate_valid t) as [dateString Hf].
    exists (resolved gtfsData (Time t) dateString).
    split; [by apply getCalendarStatusForDate_eq|].
    intros c s Hbad Hcal.
    assert (baseActive c (Time t) = false) as Hb.
    { unfold baseActive. by rewrite unparseable_never_in_range. }
    split.
    + simpl. rewrite list_elem_of_In, in_flat_map.
      intros (c' & _ & [-> Hb']%excluded_entry_inv).
      simpl in Hcal. simplify_eq. congruence.
    + simpl. rewrite elem_of_app, !list_elem_of_In, !in_flat_map.
      intros [(c' & _ & Hs%active_entry_inv) | (cd & _ & ->%exception_only_entry_inv)];
        [|done].
      destruct Hs as [[-> Hb'] | ->]; simpl in Hcal; simplify_eq; [congruence|done].
  - intros date c Hbad. split; [by apply unparseable_never_in_range|].
    intros s. unfold getBaseCalendarsForDate. rewrite base_loop. simpl.
    rewrite list_elem_of_fmap. intros (c' & -> & [Hb _]%list_elem_of_filter).
    simpl. intros [= ->]. unfold baseActive in Hb.
    by rewrite unparseable_never_in_range in Hb.
  - intros c s e t' Hs He. unfold isDateInCalendarRange. rewrite Hs, He.
    apply isWithinInterval_valid.
Qed.

Lemma bad_rows_witness :
  isDateInCalendarRange garbled_row july_4th_2024 = false
  ∧ ∀ s, s ∈ getBaseCalendarsForDate garbled_dataset july_4th_2024 →
         calendar s ≠ Some garbled_row.
Proof.
  destruct (bad_rows garbled_dataset 0) as (_ & Hbad & _).
  apply Hbad. left. reflexivity.
Defined.

(** ** The date range *)

Lemma range_calendar_scan cals st :
  fold_left range_calendar_step cals st
  = (fold_left lower (map (λ c, parseGTFSDate (start_date c)) cals) st.1,
     fold_left raise (map (λ c, parseGTFSDate (end_date c)) cals) st.2).
Proof.
  revert st. induction cals as [|c cals IH]; intros [lo hi]; [done|].
  simpl. by rewrite IH.
Qed.

Lemma range_exception_scan cds st :
  fold_left range_exception_step cds st
  = (fold_left lower (map (λ cd, parseGTFSDate (cd_date cd)) cds) st.1,
     fold_left raise (map (λ cd, parseGTFSDate (cd_date cd)) cds) st.2).
Proof.
  revert st. induction cds as [|cd cds IH]; intros [lo hi]; [done|].
  simpl. by rewrite IH.
Qed.

Lemma range_scan gtfsData :
  fold_left range_exception_step (calendarDates gtfsData)
    (fold_left range_calendar_step (calendars gtfsData) (None, None))
  = (fold_left lower (lower_dates gtfsData) None,
     fold_left raise (upper_dates gtfsData) None).
Proof.
  rewrite range_exception_scan, range_calendar_scan. simpl.
  unfold lower_dates, upper_dates. by rewrite !fold_left_app.
Qed.

Lemma lower_from_Some ds m : is_Some (fold_left lower ds (Some m)).
Proof.
  revert m. induction ds as [|d ds IH]; intros m; simpl; [by eexists|].
  destruct (date_lt d m); apply IH.
Qed.

Lemma raise_from_Some ds m : is_Some (fold_left raise ds (Some m)).
Proof.
  revert m. induction ds as [|d ds IH]; intros m; simpl; [by eexists|].
  destruct (date_gt d m); apply IH.
Qed.

Lemma lower_times ts m :
  fold_left lower (map Time ts) (Some (Time m))
  = Some (Time (fold_left Z.min ts m)).
Proof.
  revert m. induction ts as [|t ts IH]; intros m; simpl; [done|].
  destruct (Z.ltb_spec t m); rewrite IH; do 3 f_equal; lia.
Qed.

Lemma raise_times ts m :
  fold_left raise (map Time ts) (Some (Time m))
  = Some (Time (fold_left Z.max ts m)).
Proof.
  revert m. induction ts as [|t ts IH]; intros m; simpl; [done|].
  unfold date_gt. simpl.
  destruct (Z.ltb_spec m t); rewrite IH; do 3 f_equal; lia.
Qed.

Lemma fold_min_spec ts m :
  fold_left Z.min ts m ∈ m :: ts
  ∧ ∀ x, x ∈ m :: ts → fold_left Z.min ts m ≤ x.
Proof.
  revert m. induction ts as [|t ts IH]; intros m; simpl.
  - split; [by left|]. intros x ->%list_elem_of_singleton. lia.
  - destruct (IH (Z.min m t)) as [Hin Hle]. split.
    + apply elem_of_cons in Hin as [Hin|Hin]; [|by do 2 right].
      rewrite Hin. destruct (Z.min_spec m t) as [[_ ->]|[_ ->]];
        [by left | right; by left].
    + intros x Hx. apply elem_of_cons in Hx as [->|Hx].
      * specialize (Hle (Z.min m t) ltac:(by left)). lia.
      * apply elem_of_cons in Hx as [->|Hx].
        -- specialize (Hle (Z.min m t) ltac:(by left)). lia.
        -- apply Hle. by right.
Qed.

Lemma fold_max_spec ts m :
  fold_left Z.max ts m ∈ m :: ts
  ∧ ∀ x, x ∈ m :: ts → x ≤ fold_left Z.max ts m.
Proof.
  revert m. induction ts as [|t ts IH]; intros m; simpl.
  - split; [by left|]. intros x ->%list_elem_of_singleton. lia.
  - destruct (IH (Z.max m t)) as [Hin Hle]. split.
    + apply elem_of_cons in Hin as [Hin|Hin]; [|by do 2 right].
      rewrite Hin. destruct (Z.max_spec m t) as [[_ ->]|[_ ->]];
        [right; by left | by left].
    + intros x Hx. apply elem_of_cons in Hx as [->|Hx].
      * specialize (Hle (Z.max m t) ltac:(by left)). lia.
      * apply elem_of_cons in Hx as [->|Hx].
        -- specialize (Hle (Z.max m t) ltac:(by left)). lia.
        -- apply Hle. by right.
Qed.

(** A list of valid dates is a list of time values. *)
Lemma valid_dates_times (ds : list Date) :
  Forall (λ d, d ≠ InvalidDate) ds → ∃ ts, ds = map Time ts.
Proof.
  induction 1 as [|d ds Hd _ [ts ->]]; [by exists []|].
  destruct d as [|t]; [done|]. by exists (t :: ts).
Qed.

Lemma getDateRange_None gtfsData :
  getDateRange gtfsData = None
  ↔ calendars gtfsData = [] ∧ calendarDates gtfsData = [].
Proof.
  unfold getDateRange. rewrite range_scan. unfold lower_dates, upper_dates.
  destruct (calendars gtfsData) as [|c cals], (calendarDates gtfsData) as [|cd cds];
    simpl; [done| | |].
  all: match goal with
       | |- context [fold_left lower ?l (Some ?m)] =>
           destruct (lower_from_Some l m) as [lo ->]
       end.
  all: match goal with
       | |- context [fold_left raise ?l (Some ?m)] =>
           destruct (raise_from_Some l m) as [hi ->]
       end.
  all: split; [done|]; intros [? ?]; done.
Qed.

Lemma elem_of_map_Time x ts : Time x ∈ map Time ts ↔ x ∈ ts.
Proof.
  rewrite list_elem_of_fmap. split; [|by exists x].
  by intros (y & [= ->] & ?).
Qed.

Lemma lowest_of_times ts :
  ts ≠ [] →
  ∃ lo, fold_left lower (map Time ts) None = Some (Time lo)
        ∧ lo ∈ ts ∧ ∀ x, x ∈ ts → lo ≤ x.
Proof.
  destruct ts as [|t ts]; [done|]. intros _. simpl.
  rewrite lower_times. eexists. split; [done|]. apply fold_min_spec.
Qed.

Lemma highest_of_times ts :
  ts ≠ [] →
  ∃ hi, fold_left raise (map Time ts) None = Some (Time hi)
        ∧ hi ∈ ts ∧ ∀ x, x ∈ ts → x ≤ hi.
Proof.
  destruct ts as [|t ts]; [done|]. intros _. simpl.
  rewrite raise_times. eexists. split; [done|]. apply fold_max_spec.
Qed.

Lemma all_parse_lower gtfsData :
  all_parse gtfsData → Forall (λ d, d ≠ InvalidDate) (lower_dates gtfsData).
Proof.
  unfold all_parse, all_dates, lower_dates. rewrite !Forall_app. tauto.
Qed.

Lemma all_parse_upper gtfsData :
  all_parse gtfsData → Forall (λ d, d ≠ InvalidDate) (upper_dates gtfsData).
Proof.
  unfold all_parse, all_dates, upper_dates. rewrite !Forall_app. tauto.
Qed.

(** C4, as stated, fails: on the dataset with the one row from 2024-12-31
    back to 2024-01-01, the start of the range is 2024-12-31, which is not
    the least of the dataset's dates, and the end is 2024-01-01, which is
    not the greatest. *)
Lemma dateRange_not_overall_min_max :
  getDateRange reversed_dataset
  = Some (Time 1735603200000, Time 1704067200000)
  ∧ all_dates reversed_dataset = [Time 1735603200000; Time 1704067200000]
  ∧ ¬ (∀ x, Time x ∈ all_dates reversed_dataset → 1735603200000 ≤ x)
  ∧ ¬ (∀ x, Time x ∈ all_dates reversed_dataset → x ≤ 1704067200000).
Proof.
  split; [by vm_compute|]. split; [by vm_compute|].
  assert (all_dates reversed_dataset
          = [Time 1735603200000; Time 1704067200000]) as -> by by vm_compute.
  split; intros H.
  - specialize (H 1704067200000 ltac:(right; by left)). lia.
  - specialize (H 1735603200000 ltac:(by left)). lia.
Qed.

(** C4, amended.  [getDateRange] returns [null] exactly when [calendars]
    and [calendarDates] are both empty.  Otherwise, when every date of the
    dataset parses, it returns the pair whose start is the least of the
    calendar start dates and the exception dates, and whose end is the
    greatest of the calendar end dates and the exception dates; when
    moreover no calendar row has its start date after its end date, these
    are the least and the greatest of all the dates of the dataset. *)
Theorem dateRange_bounds (gtfsData : GTFSData) :
  (getDateRange gtfsData = None
   ↔ calendars gtfsData = [] ∧ calendarDates gtfsData = [])
  ∧ (all_parse gtfsData →
     ¬ (calendars gtfsData = [] ∧ calendarDates gtfsData = []) →
     ∃ lo hi,
       getDateRange gtfsData = Some (Time lo, Time hi)
       ∧ Time lo ∈ lower_dates gtfsData
       ∧ (∀ x, Time x ∈ lower_dates gtfsData → lo ≤ x)
       ∧ Time hi ∈ upper_dates gtfsData
       ∧ (∀ x, Time x ∈ upper_dates gtfsData → x ≤ hi)
       ∧ (ranges_in_order gtfsData →
          ∀ x, Time x ∈ all_dates gtfsData → lo ≤ x ≤ hi)).
Proof.
  split; [apply getDateRange_None|].
  intros Hparse Hne.
  destruct (valid_dates_times _ (all_parse_lower _ Hparse)) as [ls Hls].
  destruct (valid_dates_times _ (all_parse_upper _ Hparse)) as [us Hus].
  assert (ls ≠ []) as Hl.
  { intros ->. apply Hne. unfold lower_dates in Hls.
    apply app_eq_nil in Hls as [?%map_eq_nil ?%map_eq_nil]. done. }
  assert (us ≠ []) as Hu.
  { intros ->. apply Hne. unfold upper_dates in Hus.
    apply app_eq_nil in Hus as [?%map_eq_nil ?%map_eq_nil]. done. }
  destruct (lowest_of_times ls Hl) as (lo & Hlo & Hlo_in & Hlo_le).
  destruct (highest_of_times us Hu) as (hi & Hhi & Hhi_in & Hhi_le).
  exists lo, hi.
  assert (getDateRange gtfsData = Some (Time lo, Time hi)) as Hr.
  { unfold getDateRange. rewrite range_scan, Hls, Hus, Hlo, Hhi.
    destruct (calendars gtfsData), (calendarDates gtfsData); simpl; try done.
    exfalso. by apply Hne. }
  split; [done|]. rewrite Hls, Hus. setoid_rewrite elem_of_map_Time.
  split; [done|]. split; [done|]. split; [done|]. split; [done|].
  intros Hord x Hx.
  assert (∀ y, Time y ∈ lower_dates gtfsData → lo ≤ y) as Hlow.
  { intros y. rewrite Hls, elem_of_map_Time. apply Hlo_le. }
  assert (∀ y, Time y ∈ upper_dates gtfsData → y ≤ hi) as Hup.
  { intros y. rewrite Hus, elem_of_map_Time. apply Hhi_le. }
  clear Hls Hus. unfold all_dates in Hx. unfold lower_dates in Hlow.
  unfold upper_dates in Hup.
  setoid_rewrite elem_of_app in Hlow. setoid_rewrite elem_of_app in Hup.
  rewrite !elem_of_app in Hx.
  destruct Hx as [Hx | [Hx | Hx]].
  - split; [by apply Hlow; left|].
    apply list_elem_of_fmap in Hx as (c & Hc & Hin).
    unfold ranges_in_order in Hord. rewrite Forall_forall in Hord.
    specialize (Hord c Hin). rewrite <- Hc in Hord.
    destruct (parseGTFSDate (end_date c)) as [|e] eqn:He; [done|].
    simpl in Hord. apply Z.leb_le in Hord.
    assert (e ≤ hi); [|lia].
    apply Hup. left. apply list_elem_of_fmap. exists c. by rewrite He.
  - split; [|by apply Hup; left].
    apply list_elem_of_fmap in Hx as (c & Hc & Hin).
    unfold ranges_in_order in Hord. rewrite Forall_forall in Hord.
    specialize (Hord c Hin). rewrite <- Hc in Hord.
    destruct (parseGTFSDate (start_date c)) as [|s] eqn:Hs; [done|].
    simpl in Hord. apply Z.leb_le in Hord.
    assert (lo ≤ s); [|lia].
    apply Hlow. left. apply list_elem_of_fmap. exists c. by rewrite Hs.
  - split; [by apply Hlow; right | by apply Hup; right].
Qed.

Lemma dateRange_bounds_witness :
  ∃ lo hi,
    getDateRange three_days_dataset = Some (Time lo, Time hi)
    ∧ Time lo ∈ lower_dates three_days_dataset
    ∧ (∀ x, Time x ∈ lower_dates three_days_dataset → lo ≤ x)
    ∧ Time hi ∈ upper_dates three_days_dataset
    ∧ (∀ x, Time x ∈ upper_dates three_days_dataset → x ≤ hi)
    ∧ (ranges_in_order three_days_dataset →
       ∀ x, Time x ∈ all_dates three_days_dataset → lo ≤ x ≤ hi).
Proof.
  apply (dateRange_bounds three_days_dataset).
  - unfold all_parse. vm_compute. repeat constructor; discriminate.
  - intros [H _]. discriminate H.
Defined.

(** ** The available dates *)

Lemma day_le_div a i : i * msPerDay ≤ a ↔ i ≤ a / msPerDay.
Proof. unfold msPerDay. Z.to_euclidean_division_equations. lia. Qed.

Lemma div_sub_days e d : (e - d * msPerDay) / msPerDay = e / msPerDay - d.
Proof. unfold msPerDay. Z.to_euclidean_division_equations. lia. Qed.

(** The loop of [eachDayOfInterval], started on day [i] with enough fuel to
    reach [endTime], pushes the midnights of the days [i], [i + 1], ... up
    to the day of [endTime] and stops because its condition fails. *)
Lemma eachDay_loop_days fuel i endTime dates :
  (Z.to_nat (dayNumber endTime - i + 1) ≤ fuel)%nat →
  eachDay_loop fuel (i * msPerDay) endTime dates
  = dates ++ map (λ d, Time (d * msPerDay))
                 (seqZ i (dayNumber endTime - i + 1)).
Proof.
  revert i dates. induction fuel as [|fuel IH]; intros i dates Hfuel.
  - rewrite seqZ_nil by lia. simpl. by rewrite app_nil_r.
  - simpl. destruct (Z.leb_spec (i * msPerDay) endTime) as [Hle|Hgt].
    + apply day_le_div in Hle. fold (dayNumber endTime) in Hle.
      replace (i * msPerDay + msPerDay) with ((i + 1) * msPerDay) by lia.
      rewrite IH by lia.
      rewrite (seqZ_cons i) by lia. simpl. rewrite <- app_assoc. simpl.
      replace (Z.succ i) with (i + 1) by lia.
      replace (Z.pred (dayNumber endTime - i + 1))
        with (dayNumber endTime - (i + 1) + 1) by lia.
      done.
    + assert (¬ i ≤ dayNumber endTime) as Hn.
      { unfold dayNumber. rewrite <- day_le_div. lia. }
      rewrite seqZ_nil by lia. simpl. by rewrite app_nil_r.
Qed.

(** The fuel [eachDayOfInterval] gives its loop is enough. *)
Lemma eachDay_rounds_enough d endTime :
  (Z.to_nat (dayNumber endTime - d + 1)
   ≤ eachDay_rounds (d * msPerDay) endTime)%nat.
Proof.
  unfold eachDay_rounds. rewrite div_sub_days. unfold dayNumber. lia.
Qed.

Lemma eachDayOfInterval_days s e :
  s ≤ e →
  eachDayOfInterval (Time s) (Time e)
  = map (λ d, Time (d * msPerDay))
        (seqZ (dayNumber s) (dayNumber e - dayNumber s + 1)).
Proof.
  intros Hle. unfold eachDayOfInterval, date_gt, date_lt.
  destruct (Z.ltb_spec e s); [lia|]. simpl.
  by rewrite eachDay_loop_days by apply eachDay_rounds_enough.
Qed.

Lemma eachDayOfInterval_invalid_start e :
  eachDayOfInterval InvalidDate e = [].
Proof. by destruct e. Qed.

Lemma eachDayOfInterval_invalid_end s :
  eachDayOfInterval s InvalidDate = [].
Proof. by destruct s. Qed.

(** C9, as stated, fails: [getAvailableDates] has the dataset as its only
    argument and takes today from the clock, so that on one dataset it
    answers three days when called at noon of 2024-01-01 and one day when
    called on 2024-01-03. *)
Lemma availableDates_depend_on_clock :
  getAvailableDates 1704110400000 three_days_dataset
  = [Time 1704067200000; Time 1704153600000; Time 1704240000000]
  ∧ getAvailableDates 1704240000000 three_days_dataset
    = [Time 1704240000000]
  ∧ ¬ (∀ now now', getAvailableDates now three_days_dataset
                    = getAvailableDates now' three_days_dataset).
Proof.
  split; [by vm_compute|]. split; [by vm_compute|].
  intros H. specialize (H 1704110400000 1704240000000).
  vm_compute in H. discriminate H.
Qed.

(** C9, amended.  [getAvailableDates] takes the dataset only; today is
    local midnight of the day the clock gives at the call.  With that
    today: the result is empty when [getDateRange] is [null], when one end
    of the range is an invalid date, or when the later of today and the
    start of the range is after the end of the range; otherwise it holds
    one entry, local midnight, for each day from the later of today and the
    start of the range to the end of the range, in order. *)
Theorem availableDates_from_today (now : Z) (gtfsData : GTFSData) :
  let today := dayNumber now * msPerDay in
  (getDateRange gtfsData = None → getAvailableDates now gtfsData = [])
  ∧ (∀ range_start range_end,
       getDateRange gtfsData = Some (range_start, range_end) →
       range_start = InvalidDate ∨ range_end = InvalidDate →
       getAvailableDates now gtfsData = [])
  ∧ (∀ s e,
       getDateRange gtfsData = Some (Time s, Time e) →
       let first := Z.max today s in
       (e < first → getAvailableDates now gtfsData = [])
       ∧ (first ≤ e →
          getAvailableDates now gtfsData
          = map (λ d, Time (d * msPerDay))
                (seqZ (dayNumber first) (dayNumber e - dayNumber first + 1))
          ∧ Z.of_nat (length (getAvailableDates now gtfsData))
            = dayNumber e - dayNumber first + 1)).
Proof.
  intros today. unfold getAvailableDates. split; [|split].
  - by intros ->.
  - intros range_start range_end -> [-> | ->]; simpl.
    + destruct (date_gt _ _); [done|].
      apply eachDayOfInterval_invalid_start.
    + apply eachDayOfInterval_invalid_end.
  - intros s e Hr. rewrite Hr. set (first := Z.max today s).
    unfold startOfDay. fold today.
    assert ((if date_gt (Time today) (Time s) then Time today else Time s)
            = Time first) as ->.
    { unfold date_gt, date_lt, first.
      destruct (Z.ltb_spec s today); f_equal; lia. }
    unfold date_gt, date_lt. destruct (Z.ltb_spec e first); split; try lia.
    + done.
    + intros _. rewrite eachDayOfInterval_days by done. split; [done|].
      rewrite length_map, length_seqZ.
      assert (dayNumber first ≤ dayNumber e); [|lia].
      unfold dayNumber. apply Z.div_le_mono; [by unfold msPerDay|done].
Qed.

Lemma availableDates_from_today_witness :
  getAvailableDates 1704110400000 three_days_dataset
  = map (λ d, Time (d * msPerDay)) (seqZ 19723 3)
  ∧ Z.of_nat (length (getAvailableDates 1704110400000 three_days_dataset)) = 3.
Proof.
  destruct (availableDates_from_today 1704110400000 three_days_dataset)
    as (_ & _ & H).
  destruct (H 1704067200000 1704240000000) as [_ Hdays]; [reflexivity|].
  apply Hdays. vm_compute. discriminate.
Defined.

(** ** The trip projector *)

(** [new Map(entries)]: a later entry overwrites an earlier one with the
    same key. *)
Lemma fold_insert_absent {V} (entries : list (string * V)) (m : gmap string V) k :
  (∀ e, e ∈ entries → e.1 ≠ k) →
  fold_left (λ m e, <[ e.1 := e.2 ]> m) entries m !! k = m !! k.
Proof.
  revert m. induction entries as [|e entries IH]; intros m Hk; [done|].
  simpl. rewrite IH.
  - apply lookup_insert_ne. apply Hk. by left.
  - intros e' He'. apply Hk. by right.
Qed.

Lemma new_Map_last {V} (before after : list (string * V)) k v :
  (∀ e, e ∈ after → e.1 ≠ k) →
  new_Map (before ++ (k, v) :: after) !! k = Some v.
Proof.
  intros Hk. unfold new_Map. rewrite fold_left_app. simpl.
  rewrite fold_insert_absent by done. apply lookup_insert_eq.
Qed.

Lemma fold_insert_lookup {V} (entries : list (string * V)) (m : gmap string V) k :
  match fold_left (λ m e, <[ e.1 := e.2 ]> m) entries m !! k with
  | Some v => (k, v) ∈ entries ∨ m !! k = Some v
  | None => (∀ e, e ∈ entries → e.1 ≠ k) ∧ m !! k = None
  end.
Proof.
  revert m. induction entries as [|[k' v'] entries IH]; intros m.
  - simpl. destruct (m !! k); [by right|]. split; [|done].
    intros e He. by apply elem_of_nil in He.
  - simpl. specialize (IH (<[k':=v']> m)).
    destruct (fold_left _ entries _ !! k) as [v|].
    + destruct IH as [Hin|Hm]; [left; by right|].
      destruct (decide (k' = k)) as [->|Hne].
      * rewrite lookup_insert_eq in Hm. simplify_eq. left. by left.
      * rewrite lookup_insert_ne in Hm by done. by right.
    + destruct IH as [Hall Hm].
      destruct (decide (k' = k)) as [->|Hne].
      * by rewrite lookup_insert_eq in Hm.
      * rewrite lookup_insert_ne in Hm by done. split; [|done].
        intros e [->|He]%elem_of_cons; [done|by apply Hall].
Qed.

Lemma routeMap_lookup (rs : list GTFSRoute) k :
  match new_Map (map (λ r, (r_route_id r, r)) rs) !! k with
  | Some r => r ∈ rs ∧ r_route_id r = k
  | None => ∀ r, r ∈ rs → r_route_id r ≠ k
  end.
Proof.
  pose proof (fold_insert_lookup (map (λ r, (r_route_id r, r)) rs) ∅ k) as H.
  unfold new_Map. destruct (fold_left _ _ _ !! k) as [r|].
  - destruct H as [Hin|Hm]; [|by rewrite lookup_empty in Hm].
    apply list_elem_of_fmap in Hin as (r' & Heq & Hr').
    by simplify_eq.
  - destruct H as [Hall _]. intros r Hr.
    apply (Hall (r_route_id r, r)). apply list_elem_of_fmap. by exists r.
Qed.

(** C6.  On every dataset and every (valid) date, [getTripsForDate]
    returns; the trips it returns are exactly the trips of the dataset whose
    service id is the service id of an entry of the active list of
    [getCalendarStatusForDate] for that date, in the order of [trips]; each
    comes with a route of the dataset that has its route id, or with no
    route when no route of the dataset has that id.  So no returned trip has
    a service id outside the active set. *)
Theorem project_active_trips (gtfsData : GTFSData) (t : Z) :
  ∃ lists result,
    getCalendarStatusForDate gtfsData (Time t) = Some lists
    ∧ getTripsForDate gtfsData (Time t) = Some result
    ∧ map trip result
      = filter (λ tr, trip_service_id tr ∈ map status_service_id (active lists))
               (trips gtfsData)
    ∧ (∀ twr, twr ∈ result →
         trip_service_id (trip twr) ∈ map status_service_id (active lists))
    ∧ (∀ twr, twr ∈ result →
         match route twr with
         | Some r => r ∈ routes gtfsData ∧ r_route_id r = route_id (trip twr)
         | None => ∀ r, r ∈ routes gtfsData → r_route_id r ≠ route_id (trip twr)
         end).
Proof.
  destruct (formatGTFSDate_valid t) as [dateString Hf].
  pose proof (getCalendarStatusForDate_eq gtfsData _ _ Hf) as Hres.
  set (lists := resolved gtfsData (Time t) dateString) in *.
  unfold getTripsForDate, getActiveServiceIds. rewrite Hres. simpl.
  eexists lists, _. split; [done|]. split; [done|].
  assert (map trip
            (map (λ tr, {| trip := tr;
                           route := new_Map (map (λ r, (r_route_id r, r))
                                                 (routes gtfsData))
                                    !! route_id tr |})
                 (filter (λ tr, trip_service_id tr
                                ∈ (list_to_set (map status_service_id
                                                    (active lists))
                                   : gset string))
                         (trips gtfsData)))
          = filter (λ tr, trip_service_id tr
                          ∈ map status_service_id (active lists))
                   (trips gtfsData)) as Hmap.
  { rewrite map_map. simpl. rewrite map_id.
    apply list_filter_iff. intros tr. apply elem_of_list_to_set. }
  split; [exact Hmap|]. split.
  - intros twr Htwr.
    assert (trip twr ∈ filter (λ tr, trip_service_id tr
                                      ∈ map status_service_id (active lists))
                              (trips gtfsData)) as Hin.
    { rewrite <- Hmap. by apply (list_elem_of_fmap_2 trip). }
    by apply list_elem_of_filter in Hin as [? _].
  - intros twr (tr & -> & _)%list_elem_of_fmap. simpl.
    apply routeMap_lookup.
Qed.

Example two_routes_trips :
  getTripsForDate two_routes_dataset july_4th_2024
  = Some [ {| trip := plain_trip "R1" "WD" "T1";
              route := Some (plain_route "R1" "1bis") |} ].
Proof. by vm_compute. Qed.

Lemma validate_ignores_routes gtfsData routes' :
  validateGTFSData
    {| calendars := calendars gtfsData;
       calendarDates := calendarDates gtfsData;
       trips := trips gtfsData;
       routes := routes' |}
  = validateGTFSData gtfsData.
Proof. reflexivity. Qed.

(** C10.  When [r] is the last row of [routes] with its route id, whatever
    rows with the same id come before it, [getTripsForDate] returns every
    trip of that route id whose service is active on the date, and returns
    it with [r]: every trip it returns for that route id carries [r]; and
    [validateGTFSData] does not look at [routes]: its result is the same
    whatever the route rows are. *)
Theorem last_route_row_wins (gtfsData : GTFSData) (t : Z)
    (before after : list GTFSRoute) (r : GTFSRoute) :
  routes gtfsData = before ++ r :: after →
  (∀ r', r' ∈ after → r_route_id r' ≠ r_route_id r) →
  (∃ lists result,
     getCalendarStatusForDate gtfsData (Time t) = Some lists
     ∧ getTripsForDate gtfsData (Time t) = Some result
     ∧ (∀ twr, twr ∈ result →
          route_id (trip twr) = r_route_id r → route twr = Some r)
     ∧ (∀ tr, tr ∈ trips gtfsData →
          route_id tr = r_route_id r →
          trip_service_id tr ∈ map status_service_id (active lists) →
          {| trip := tr; route := Some r |} ∈ result))
  ∧ (∀ routes',
       validateGTFSData
         {| calendars := calendars gtfsData;
            calendarDates := calendarDates gtfsData;
            trips := trips gtfsData;
            routes := routes' |}
       = validateGTFSData gtfsData).
Proof.
  intros Hroutes Hlast. split; [|apply validate_ignores_routes].
  destruct (formatGTFSDate_valid t) as [dateString Hf].
  pose proof (getCalendarStatusForDate_eq gtfsData _ _ Hf) as Hres.
  set (lists := resolved gtfsData (Time t) dateString) in *.
  assert (new_Map (map (λ r0, (r_route_id r0, r0)) (routes gtfsData))
          !! r_route_id r = Some r) as Hlookup.
  { rewrite Hroutes, map_app. simpl. apply new_Map_last.
    intros e (r' & -> & Hr')%list_elem_of_fmap. simpl. by apply Hlast. }
  unfold getTripsForDate, getActiveServiceIds. rewrite Hres. simpl.
  eexists lists, _. split; [done|]. split; [done|]. split.
  - intros twr (tr & -> & _)%list_elem_of_fmap. simpl. by intros ->.
  - intros tr Htr Hid Hactive.
    apply list_elem_of_fmap. exists tr. split; [by rewrite Hid, Hlookup|].
    apply list_elem_of_filter. split; [|done].
    by apply elem_of_list_to_set.
Qed.

(** The trip of route R1, which has two rows, is returned on 2024-07-04 with
    the second of them. *)
Lemma last_route_row_wins_witness :
  ∃ result,
    getTripsForDate two_routes_dataset (Time 1720051200000) = Some result
    ∧ {| trip := plain_trip "R1" "WD" "T1";
         route := Some (plain_route "R1" "1bis") |} ∈ result.
Proof.
  destruct (last_route_row_wins two_routes_dataset 1720051200000
              [plain_route "R1" "1"] [] (plain_route "R1" "1bis"))
    as [(lists & result & Hres & Htrips & _ & Hreturned) _].
  - reflexivity.
  - intros r' Hr'. by apply elem_of_nil in Hr'.
  - exists result. split; [exact Htrips|].
    apply (Hreturned (plain_trip "R1" "WD" "T1")).
    + left.
    + reflexivity.
    + vm_compute in Hres. injection Hres as <-. left.
Defined.

(** ** The validator *)

Lemma first_encounters_snoc l x :
  first_encounters (l ++ [x])
  = if decide (x ∈ first_encounters l) then first_encounters l
    else first_encounters l ++ [x].
Proof. unfold first_encounters. by rewrite fold_left_app. Qed.

Lemma elem_of_first_encounters l x : x ∈ first_encounters l ↔ x ∈ l.
Proof.
  induction l as [|y l IH] using rev_ind; [done|].
  rewrite first_encounters_snoc, elem_of_app, list_elem_of_singleton.
  case_decide as Hy; [|rewrite elem_of_app, list_elem_of_singleton]; [|tauto].
  split; [tauto|]. intros [?| ->]; tauto.
Qed.

Lemma NoDup_first_encounters l : NoDup (first_encounters l).
Proof.
  induction l as [|y l IH] using rev_ind; [constructor|].
  rewrite first_encounters_snoc. case_decide as Hy; [done|].
  apply NoDup_app. split; [done|]. split; [|apply NoDup_singleton].
  intros x Hx ->%list_elem_of_singleton. done.
Qed.

Lemma occurrences_snoc k l x :
  occurrences k (l ++ [x])
  = occurrences k l + (if decide (x = k) then 1 else 0).
Proof.
  unfold occurrences. rewrite filter_app, length_app, filter_cons, filter_nil.
  case_decide; simpl; lia.
Qed.

Lemma occurrences_absent k l : k ∉ l → occurrences k l = 0.
Proof.
  intros Hk. unfold occurrences.
  destruct (filter (λ x, x = k) l) as [|y ys] eqn:Hf; [done|].
  assert (y ∈ filter (λ x, x = k) l) as Hy by (rewrite Hf; by left).
  apply list_elem_of_filter in Hy as [-> Hy]. done.
Qed.

Lemma occurrences_present k l : k ∈ l → 1 ≤ occurrences k l.
Proof.
  intros Hk. unfold occurrences.
  assert (k ∈ filter (λ x, x = k) l) as Hin by by apply list_elem_of_filter.
  destruct (filter _ l); [by apply elem_of_nil in Hin|]. simpl. lia.
Qed.

Lemma get_table f ks x :
  OrderedMap.get (table f ks) x
  = if decide (x ∈ ks) then Some (f x) else None.
Proof.
  induction ks as [|k ks IH].
  - case_decide as H; [by apply elem_of_nil in H|done].
  - cbn [table map OrderedMap.get]. fold (table f ks).
    destruct (String.eqb_spec k x) as [->|Hne].
    + by rewrite decide_True by by left.
    + rewrite IH. destruct (decide (x ∈ ks)) as [Hin|Hin].
      * by rewrite decide_True by by right.
      * rewrite decide_False; [done|].
        intros [->|?]%elem_of_cons; done.
Qed.

Lemma set_table_absent f ks x v :
  x ∉ ks → OrderedMap.set (table f ks) x v = table f ks ++ [(x, v)].
Proof.
  induction ks as [|k ks IH]; intros Hx; simpl; [done|].
  apply not_elem_of_cons in Hx as [Hne Hx].
  destruct (String.eqb_spec k x) as [->|_]; [done|]. by rewrite IH.
Qed.

Lemma set_table_present f ks x v :
  x ∈ ks → NoDup ks →
  OrderedMap.set (table f ks) x v
  = table (λ k, if decide (k = x) then v else f k) ks.
Proof.
  induction ks as [|k ks IH]; intros Hx Hnd; [by apply elem_of_nil in Hx|].
  apply NoDup_cons in Hnd as [Hk Hnd]. simpl.
  destruct (String.eqb_spec k x) as [->|Hne].
  - rewrite decide_True by done. f_equal. unfold table.
    apply map_ext_in. intros k Hin%list_elem_of_In.
    rewrite decide_False; [done|]. by intros ->.
  - rewrite decide_False by done. f_equal. apply IH; [|done].
    by apply elem_of_cons in Hx as [->|Hx].
Qed.

Lemma seen_of_table arr :
  seen_of arr = table (λ k, occurrences k arr) (first_encounters arr).
Proof.
  induction arr as [|x l IH] using rev_ind; [done|].
  unfold seen_of in *. rewrite fold_left_app. simpl. rewrite IH.
  unfold count_or_0. rewrite get_table, first_encounters_snoc.
  case_decide as Hx.
  - rewrite set_table_present by (done || apply NoDup_first_encounters).
    unfold table. apply map_ext. intros k. f_equal.
    rewrite occurrences_snoc.
    destruct (decide (k = x)) as [->|Hne]; [by rewrite decide_True|].
    rewrite decide_False by done. lia.
  - rewrite set_table_absent by done. unfold table. rewrite map_app. simpl.
    rewrite elem_of_first_encounters in Hx. f_equal.
    + apply map_ext_in. intros k Hk%list_elem_of_In. f_equal.
      rewrite occurrences_snoc, decide_False; [lia|].
      intros ->. apply Hx. by apply elem_of_first_encounters.
    + rewrite occurrences_snoc, occurrences_absent by done.
      by rewrite decide_True.
Qed.

Lemma duplicates_of_table f ks acc :
  fold_left (λ duplicates '(item, count),
               if 1 <? count then duplicates ++ [item] else duplicates)
            (table f ks) acc
  = acc ++ filter (λ k, 2 ≤ f k) ks.
Proof.
  revert acc. induction ks as [|k ks IH]; intros acc; simpl.
  - by rewrite app_nil_r.
  - rewrite IH, filter_cons. destruct (Z.ltb_spec 1 (f k)).
    + rewrite decide_True by lia. by rewrite <- app_assoc.
    + by rewrite decide_False by lia.
Qed.

(** [findDuplicates] lists, in the order of their first encounter and each
    once, the values that occur at least twice. *)
Lemma findDuplicates_spec arr :
  findDuplicates arr
  = filter (λ k, 2 ≤ occurrences k arr) (first_encounters arr).
Proof.
  unfold findDuplicates. fold (seen_of arr).
  by rewrite seen_of_table, duplicates_of_table.
Qed.

Lemma NoDup_findDuplicates arr : NoDup (findDuplicates arr).
Proof.
  rewrite findDuplicates_spec. apply NoDup_filter, NoDup_first_encounters.
Qed.

Lemma elem_of_findDuplicates arr k :
  k ∈ findDuplicates arr ↔ 2 ≤ occurrences k arr.
Proof.
  rewrite findDuplicates_spec, list_elem_of_filter, elem_of_first_encounters.
  split; [tauto|]. intros Hk. split; [done|].
  destruct (decide (k ∈ arr)) as [|Hn]; [done|].
  apply occurrences_absent in Hn. lia.
Qed.

Lemma validate_isValid gtfsData :
  isValid (validateGTFSData gtfsData) = true
  ↔ issues (validateGTFSData gtfsData) = [].
Proof.
  unfold validateGTFSData. simpl. rewrite Nat.eqb_eq. apply length_zero_iff_nil.
Qed.

(** The issue of the trip ids and the issue of the calendar service ids, when
    there is one, list what [findDuplicates] finds: each value that occurs
    twice or more, once, in the order of first encounter. *)
Lemma validate_simple_keys gtfsData issue :
  issue ∈ issues (validateGTFSData gtfsData) →
  (file issue = "trips.txt"%string →
   duplicates issue = findDuplicates (map trip_id (trips gtfsData)))
  ∧ (file issue = "calendar.txt"%string →
     duplicates issue = findDuplicates (map service_id (calendars gtfsData))).
Proof.
  unfold validateGTFSData, push_issue. simpl.
  repeat match goal with
         | |- context [if ?b then _ else _] => destruct b
         end; simpl;
    rewrite ?elem_of_cons, ?elem_of_nil;
    intros H; repeat destruct H as [H|H]; try done; subst; by split.
Qed.

(** *** The keys of the exception rows

    When neither the service ids nor the dates hold the separator, a key
    stands for one pair only and is listed as that pair. *)

Section ExceptionKeys.

Local Open Scope string_scope.

Lemma split_no_separator s : no_separator s = true → split "|" s = [s].
Proof.
  induction s as [|c s IH]; simpl; [done|].
  intros [Hc Hs]%andb_true_iff. apply negb_true_iff in Hc.
  by rewrite Hc, (IH Hs).
Qed.

Lemma split_key sid d :
  no_separator sid = true → split "|" (sid ++ "|" ++ d) = sid :: split "|" d.
Proof.
  induction sid as [|c sid IH]; simpl; [done|].
  intros [Hc Hs]%andb_true_iff. apply negb_true_iff in Hc.
  by rewrite Hc, (IH Hs).
Qed.

Lemma describeKey_calendarDateKey cd :
  no_separator (cd_service_id cd) = true →
  no_separator (cd_date cd) = true →
  describeKey (calendarDateKey cd)
  = "service_id=" ++ quote ++ cd_service_id cd ++ quote ++ ", date=" ++ quote
      ++ cd_date cd ++ quote.
Proof.
  intros Hs Hd. unfold describeKey, calendarDateKey.
  by rewrite split_key, split_no_separator.
Qed.

Lemma append_cons c a b : String c a ++ b = String c (a ++ b).
Proof. reflexivity. Qed.

Lemma append_nil_l a : "" ++ a = a.
Proof. reflexivity. Qed.

Lemma separator_in_key a b : no_separator (a ++ String "|" b) = false.
Proof.
  induction a as [|c a IH]; [done|].
  rewrite append_cons. simpl. rewrite IH. apply andb_false_r.
Qed.

Lemma key_injective s1 d1 s2 d2 :
  no_separator d1 = true → no_separator d2 = true →
  s1 ++ "|" ++ d1 = s2 ++ "|" ++ d2 → s1 = s2 ∧ d1 = d2.
Proof.
  intros H1 H2. revert s2.
  induction s1 as [|c s1 IH]; intros [|c' s2];
    repeat (rewrite append_cons || rewrite append_nil_l); intros Heq.
  - by simplify_eq.
  - simplify_eq. by rewrite separator_in_key in H1.
  - simplify_eq. by rewrite separator_in_key in H2.
  - injection Heq as -> Heq.
    destruct (IH s2) as [-> ->]; [|done].
    by repeat (rewrite append_cons || rewrite append_nil_l).
Qed.

Lemma calendarDateKey_injective a b :
  no_separator (cd_date a) = true → no_separator (cd_date b) = true →
  calendarDateKey a = calendarDateKey b →
  cd_service_id a = cd_service_id b ∧ cd_date a = cd_date b.
Proof. apply key_injective. Qed.

End ExceptionKeys.

(** C5: where the code departs from it.  With the service id [A|B]
    duplicated on two dates, the issue for [calendar_dates.txt] lists the
    same text twice, [service_id="A", date="B"], which is neither of the two
    duplicated keys; and two rows that differ in service id and in date, but
    whose keys joined by [|] are the same text, are reported as a
    duplicate. *)
Theorem validate_separator_in_key :
  issues (validateGTFSData separator_dataset)
  = [ {| type := error;
         file := "calendar_dates.txt";
         field := "service_id + date";
         message := "Found 2 duplicate service_id + date combination(s)";
         duplicates := [service_A_date_B; service_A_date_B] |} ]
  ∧ NoDup (map (λ cd, (cd_service_id cd, cd_date cd))
               (calendarDates collision_dataset))
  ∧ isValid (validateGTFSData collision_dataset) = false
  ∧ issues (validateGTFSData collision_dataset)
    = [ {| type := error;
           file := "calendar_dates.txt";
           field := "service_id + date";
           message := "Found 1 duplicate service_id + date combination(s)";
           duplicates := [service_A_date_B] |} ].
Proof.
  split; [by vm_compute|]. split; [|split; by vm_compute].
  apply NoDup_cons. split; [|apply NoDup_singleton].
  intros H%list_elem_of_singleton. discriminate H.
Qed.

(** ** More on the calendar resolver *)

Lemma status_of_row gtfsData date dateString c s :
  In s (active_entry (row_outcome gtfsData date dateString c))
  ∨ In s (excluded_entry (row_outcome gtfsData date dateString c)) →
  calendar s = Some c ∧ status_service_id s = service_id c.
Proof.
  intros [[[-> _]| ->]%active_entry_inv | [-> _]%excluded_entry_inv]; done.
Qed.

(** X3: an exception type other than 1 and 2.  A calendar row whose first
    exception on the date has such a type is listed neither as active nor as
    excluded on that date, whatever its weekday flags and range say. *)
Theorem unknown_exception_type_hides_row (gtfsData : GTFSData) (t : Z) :
  ∃ dateString lists,
    formatGTFSDate (Time t) = Some dateString
    ∧ getCalendarStatusForDate gtfsData (Time t) = Some lists
    ∧ ∀ c e s,
        FirstMatch (calendarDates gtfsData) c dateString e →
        exception_type e ≠ 1 → exception_type e ≠ 2 →
        calendar s = Some c →
        (s ∉ active lists) ∧ (s ∉ excluded lists).
Proof.
  destruct (formatGTFSDate_valid t) as [dateString Hf].
  exists dateString, (resolved gtfsData (Time t) dateString).
  split; [done|]. split; [by apply getCalendarStatusForDate_eq|].
  intros c e s He%find_FirstMatch H1 H2 Hcal.
  assert (row_outcome gtfsData (Time t) dateString c = NoEntry) as Hrow.
  { unfold row_outcome, decision_table, exception_kind. rewrite He.
    destruct (Z.eqb_spec (exception_type e) 1); [done|].
    by destruct (Z.eqb_spec (exception_type e) 2). }
  simpl. rewrite elem_of_app, !list_elem_of_In, !in_flat_map. split.
  - intros [(c' & _ & Hs) | (cd & _ & ->%exception_only_entry_inv)]; [|done].
    destruct (status_of_row _ _ _ _ _ (or_introl Hs)) as [Hc _].
    rewrite Hcal in Hc. injection Hc as <-. by rewrite Hrow in Hs.
  - intros (c' & _ & Hs).
    destruct (status_of_row _ _ _ _ _ (or_intror Hs)) as [Hc _].
    rewrite Hcal in Hc. injection Hc as <-. by rewrite Hrow in Hs.
Qed.

Lemma flat_map_if {A B} (P : A → bool) (f : A → B) (l : list A) :
  flat_map (λ x, if P x then [f x] else []) l
  = map f (filter (λ x, P x = true) l).
Proof.
  induction l as [|x l IH]; simpl; [done|]. rewrite filter_cons, IH.
  destruct (P x); [by rewrite decide_True|by rewrite decide_False].
Qed.

Lemma flat_map_nil {A B} (f : A → list B) (l : list A) :
  (∀ x, x ∈ l → f x = []) → flat_map f l = [].
Proof.
  induction l as [|x l IH]; intros H; simpl; [done|].
  rewrite H by by left. apply IH. intros y Hy. apply H. by right.
Qed.

(** X4: on a date that no exception row names, the active list of
    [getCalendarStatusForDate] is the list of [getBaseCalendarsForDate] and
    nothing is excluded. *)
Theorem resolve_without_exceptions (gtfsData : GTFSData) (t : Z) :
  ∃ dateString lists,
    formatGTFSDate (Time t) = Some dateString
    ∧ getCalendarStatusForDate gtfsData (Time t) = Some lists
    ∧ ((∀ cd, cd ∈ calendarDates gtfsData → cd_date cd ≠ dateString) →
       active lists = getBaseCalendarsForDate gtfsData (Time t)
       ∧ excluded lists = []).
Proof.
  destruct (formatGTFSDate_valid t) as [dateString Hf].
  exists dateString, (resolved gtfsData (Time t) dateString).
  split; [done|]. split; [by apply getCalendarStatusForDate_eq|].
  intros Hno.
  assert (∀ c, row_outcome gtfsData (Time t) dateString c
               = if baseActive c (Time t) then ActiveEntry (regular_status c)
                 else NoEntry) as Hrow.
  { intros c. unfold row_outcome.
    assert (find (exception_matches c dateString) (calendarDates gtfsData) = None)
      as ->; [|done].
    apply find_NoMatch. unfold NoMatch. apply Forall_forall.
    intros cd Hcd [_ Hd]. by apply (Hno cd). }
  unfold getBaseCalendarsForDate. rewrite base_loop. simpl. split.
  - rewrite (flat_map_nil (exception_only_entry _ _)), app_nil_r.
    + rewrite <- (flat_map_if (λ c, baseActive c (Time t)) regular_status).
      apply flat_map_ext. intros c. rewrite Hrow. by destruct (baseActive _ _).
    + intros cd Hcd. unfold exception_only_entry.
      rewrite decide_False; [done|]. intros [Hd _]. by apply (Hno cd).
  - apply flat_map_nil. intros c _. rewrite Hrow. by destruct (baseActive _ _).
Qed.

(** The exception that [find] gives a calendar row depends on its service id
    only. *)
Lemma find_exception_same_service c c' dateString cds :
  service_id c = service_id c' →
  find (exception_matches c dateString) cds
  = find (exception_matches c' dateString) cds.
Proof.
  intros Hs. unfold exception_matches. by rewrite Hs.
Qed.

Lemma resolved_disjoint gtfsData date dateString s s' :
  s ∈ active (resolved gtfsData date dateString) →
  s' ∈ excluded (resolved gtfsData date dateString) →
  status_service_id s ≠ status_service_id s'.
Proof.
  simpl. rewrite elem_of_app, !list_elem_of_In, !in_flat_map.
  intros Hs (c' & Hc' & Hs') Heq.
  pose proof (status_of_row _ _ _ _ _ (or_intror Hs')) as [_ Hid'].
  unfold row_outcome, decision_table in Hs'.
  destruct (find (exception_matches c' dateString) _) as [e|] eqn:Hfind;
    [|by destruct (baseActive c' _)].
  destruct (exception_kind e) as [[]|] eqn:Hkind; try done.
  destruct Hs as [(c & Hc & Hs) | (cd & Hcd & Hs)].
  - pose proof (status_of_row _ _ _ _ _ (or_introl Hs)) as [_ Hid].
    unfold row_outcome, decision_table in Hs.
    rewrite (find_exception_same_service c c'), Hfind, Hkind in Hs
      by congruence.
    by destruct (baseActive c _).
  - unfold exception_only_entry in Hs. case_decide as Hd; [|done].
    destruct Hd as [_ Hnot]. apply Hnot. exists c'.
    split; [by apply list_elem_of_In|].
    destruct (exception_kind cd) as [[]|]; try done.
    destruct Hs as [<-|[]]. simpl in Heq. congruence.
Qed.

(** X5: no service id is listed both as active and as excluded on the same
    date. *)
Theorem never_active_and_excluded (gtfsData : GTFSData) (t : Z) :
  ∃ lists,
    getCalendarStatusForDate gtfsData (Time t) = Some lists
    ∧ ∀ s s', s ∈ active lists → s' ∈ excluded lists →
        status_service_id s ≠ status_service_id s'.
Proof.
  destruct (formatGTFSDate_valid t) as [dateString Hf].
  exists (resolved gtfsData (Time t) dateString).
  split; [by apply getCalendarStatusForDate_eq|].
  apply resolved_disjoint.
Qed.

(** ** The summary of a day and the statistics *)

(** X6: [getDayInfo] fails exactly on an invalid date; otherwise its fields
    are the results of the base rule, of the resolver and of the trip
    projector on that date.  Every active entry that is not an exception is a
    base entry, every excluded entry is the removal of a base entry, and every
    active trip runs on a service that is active and not excluded. *)
Theorem dayInfo_fields (gtfsData : GTFSData) (date : Date) :
  (getDayInfo gtfsData date = None ↔ date = InvalidDate)
  ∧ ∀ info, getDayInfo gtfsData date = Some info →
      getCalendarStatusForDate gtfsData date
      = Some {| active := activeCalendars info;
                excluded := excludedCalendars info |}
      ∧ baseCalendars info = getBaseCalendarsForDate gtfsData date
      ∧ getTripsForDate gtfsData date = Some (activeTrips info)
      ∧ (∀ s, s ∈ activeCalendars info → isException s = false →
              s ∈ baseCalendars info)
      ∧ (∀ s, s ∈ excludedCalendars info →
              ∃ b, b ∈ baseCalendars info ∧ calendar b = calendar s
                   ∧ isException b = false)
      ∧ (∀ twr, twr ∈ activeTrips info →
              (∃ s, s ∈ activeCalendars info
                    ∧ status_service_id s = trip_service_id (trip twr))
              ∧ ∀ s, s ∈ excludedCalendars info →
                     status_service_id s ≠ trip_service_id (trip twr)).
Proof.
  destruct date as [|t].
  { split; [done|]. intros info. by unfold getDayInfo. }
  destruct (formatGTFSDate_valid t) as [dateString Hf].
  pose proof (getCalendarStatusForDate_eq gtfsData _ _ Hf) as Hres.
  unfold getDayInfo, getTripsForDate, getActiveServiceIds.
  rewrite Hres, Hf. simpl. split; [done|].
  intros info [= <-]. simpl.
  split; [done|]. split; [done|]. split; [done|].
  unfold getBaseCalendarsForDate. rewrite base_loop. simpl.
  split; [|split].
  - intros s. rewrite elem_of_app, !list_elem_of_In, !in_flat_map.
    intros [(c & Hc & Hs) | (cd & _ & ->%exception_only_entry_inv)] Hreg;
      [|done].
    apply active_entry_inv in Hs as [[-> Hb]| ->]; [|done].
    apply in_map, list_elem_of_In, list_elem_of_filter.
    split; [done|by apply list_elem_of_In].
  - intros s. rewrite list_elem_of_In, in_flat_map.
    intros (c & Hc & [-> Hb]%excluded_entry_inv).
    exists (regular_status c). split; [|done].
    apply (list_elem_of_fmap_2 regular_status), list_elem_of_filter.
    split; [done|by apply list_elem_of_In].
  - intros twr (tr & -> & [Hin _]%list_elem_of_filter)%list_elem_of_fmap.
    simpl. apply elem_of_list_to_set, list_elem_of_fmap in Hin
      as (s & Hid & Hs).
    split; [by exists s|].
    intros s' Hs' Heq.
    apply (resolved_disjoint gtfsData (Time t) dateString s s'); try done.
    congruence.
Qed.

Lemma length_first_encounters l : (length (first_encounters l) ≤ length l)%nat.
Proof.
  induction l as [|x l IH] using rev_ind; [done|].
  rewrite first_encounters_snoc, length_app. simpl.
  case_decide; [lia|]. rewrite length_app. simpl. lia.
Qed.

(** X7: the number of unique service ids that [getServiceStats] reports
    counts each service id of the two calendar files once; it is at most the
    number of rows of the two files, is zero only when both are empty, and is
    the number of rows when no id is repeated. *)
Theorem serviceStats_unique_ids (gtfsData : GTFSData) :
  let st := getServiceStats gtfsData in
  uniqueServiceIds st = length (first_encounters (all_service_ids gtfsData))
  ∧ (uniqueServiceIds st ≤ totalCalendars st + totalExceptions st)%nat
  ∧ (uniqueServiceIds st = 0%nat
     ↔ calendars gtfsData = [] ∧ calendarDates gtfsData = [])
  ∧ (NoDup (all_service_ids gtfsData) →
     uniqueServiceIds st = (totalCalendars st + totalExceptions st)%nat).
Proof.
  intros st.
  assert (uniqueServiceIds st
          = length (first_encounters (all_service_ids gtfsData))) as Hu.
  { unfold st, getServiceStats. cbn [uniqueServiceIds].
    fold (all_service_ids gtfsData).
    rewrite <- (size_list_to_set (C := gset string) (first_encounters _))
      by apply NoDup_first_encounters.
    f_equal. apply set_eq. intros x.
    by rewrite !elem_of_list_to_set, elem_of_first_encounters. }
  assert (length (all_service_ids gtfsData)
          = (totalCalendars st + totalExceptions st)%nat) as Hlen.
  { unfold all_service_ids. by rewrite length_app, !length_map. }
  split; [done|]. rewrite Hu. split; [|split].
  - rewrite <- Hlen. apply length_first_encounters.
  - rewrite length_zero_iff_nil. split.
    + intros Hnil.
      assert (all_service_ids gtfsData = []) as Hall.
      { destruct (all_service_ids gtfsData) as [|x l] eqn:Heq; [done|].
        assert (x ∈ first_encounters (x :: l)) as Hx
          by (apply elem_of_first_encounters; by left).
        rewrite Hnil in Hx. by apply elem_of_nil in Hx. }
      unfold all_service_ids in Hall.
      by apply app_eq_nil in Hall as [?%map_eq_nil ?%map_eq_nil].
    + intros [Hc Hd]. unfold all_service_ids. by rewrite Hc, Hd.
  - intros Hnd. rewrite <- Hlen. clear Hu Hlen.
    induction (all_service_ids gtfsData) as [|x l IH] using rev_ind; [done|].
    apply NoDup_app in Hnd as (Hl & Hx & _).
    rewrite first_encounters_snoc, decide_False.
    + rewrite !length_app. simpl. by rewrite IH.
    + rewrite elem_of_first_encounters. intros Hin.
      apply (Hx x Hin). by left.
Qed.

(** ** The available dates lie in the range *)

Lemma lower_result_elem ds acc d :
  fold_left lower ds acc = Some d → acc = Some d ∨ d ∈ ds.
Proof.
  revert acc. induction ds as [|x ds IH]; intros acc; simpl; [by left|].
  intros [Hacc|Hin]%IH; [|right; by right].
  destruct acc as [m|]; simpl in Hacc.
  - destruct (date_lt x m); simplify_eq; [right; by left|by left].
  - simplify_eq. right. by left.
Qed.

Lemma getDateRange_start_midnight gtfsData s e :
  getDateRange gtfsData = Some (Time s, e) → ∃ day, s = day * msPerDay.
Proof.
  unfold getDateRange. rewrite range_scan.
  destruct (_ && _); [done|].
  destruct (fold_left lower _ _) as [lo|] eqn:Hlo; [|done].
  destruct (fold_left raise _ _) as [hi|]; [|done].
  intros [= -> ->].
  apply lower_result_elem in Hlo as [|Hin]; [done|].
  unfold lower_dates in Hin.
  apply elem_of_app in Hin as [Hin|Hin];
    apply list_elem_of_fmap in Hin as (x & Hx & _);
    symmetry in Hx; by apply parseGTFSDate_midnight in Hx.
Qed.

Lemma getAvailableDates_days now gtfsData :
  getAvailableDates now gtfsData
  = map (λ day, Time (day * msPerDay)) (available_days now gtfsData).
Proof.
  unfold getAvailableDates, available_days.
  destruct (getDateRange gtfsData) as [[[|s] [|e]]|]; try done.
  - rewrite eachDayOfInterval_invalid_end. by destruct (date_gt _ _).
  - cbn [startOfDay]. set (today := dayNumber now * msPerDay).
    assert ((if date_gt (Time today) (Time s) then Time today else Time s)
            = Time (Z.max today s)) as ->.
    { unfold date_gt, date_lt. destruct (Z.ltb_spec s today); f_equal; lia. }
    unfold date_gt, date_lt. destruct (Z.ltb_spec e (Z.max today s)); [done|].
    by apply eachDayOfInterval_days.
Qed.

(** X8: every date of [getAvailableDates] lies between the two ends of
    [getDateRange] and is not before the start of the day of the clock;
    consecutive entries fall on consecutive days, so that no date is listed
    twice.  (Days are those of the local time line of the date library
    above, a zone with a fixed offset; the statement speaks of the day of
    an entry, not of its hour.) *)
Theorem availableDates_within_range (now : Z) (gtfsData : GTFSData) :
  (∀ d, d ∈ getAvailableDates now gtfsData →
     ∃ x s e,
       d = Time x
       ∧ getDateRange gtfsData = Some (Time s, Time e)
       ∧ dayNumber now * msPerDay ≤ x
       ∧ s ≤ x ≤ e)
  ∧ NoDup (getAvailableDates now gtfsData)
  ∧ (∀ i d d', getAvailableDates now gtfsData !! i = Some d →
       getAvailableDates now gtfsData !! S i = Some d' →
       ∃ x x', d = Time x ∧ d' = Time x'
               ∧ dayNumber x' = dayNumber x + 1).
Proof.
  rewrite getAvailableDates_days. unfold available_days.
  destruct (getDateRange gtfsData) as [[[|s] [|e]]|] eqn:Hr;
    try (split; [by intros ? ?%elem_of_nil|split; [constructor|done]]).
  set (first := Z.max (dayNumber now * msPerDay) s).
  destruct (Z.ltb_spec e first) as [|Hle];
    [split; [by intros ? ?%elem_of_nil|split; [constructor|done]]|].
  destruct (getDateRange_start_midnight _ _ _ Hr) as [k ->].
  split; [|split].
  - intros d (day & -> & Hday%elem_of_seqZ)%list_elem_of_fmap.
    exists (day * msPerDay), (k * msPerDay), e.
    split; [done|]. split; [done|].
    assert (dayNumber now ≤ dayNumber first ∧ k ≤ dayNumber first) as [? ?].
    { unfold dayNumber at 2 3. rewrite <- !day_le_div. subst first. lia. }
    assert (day ≤ dayNumber e) as Hde by lia.
    unfold dayNumber in Hde. apply day_le_div in Hde.
    unfold msPerDay in *. lia.
  - apply NoDup_fmap_2; [|apply NoDup_seqZ].
    intros x y [= H]. unfold msPerDay in H. lia.
  - intros i d d'. rewrite !list_lookup_fmap.
    intros (x & Hx & ->)%fmap_Some (y & Hy & ->)%fmap_Some.
    apply lookup_seqZ in Hx as [-> _]. apply lookup_seqZ in Hy as [-> _].
    eexists _, _. split; [done|]. split; [done|].
    unfold dayNumber. rewrite !Z.div_mul by done. lia.
Qed.

Lemma getDateRange_extremes gtfsData :
  all_parse gtfsData →
  ¬ (calendars gtfsData = [] ∧ calendarDates gtfsData = []) →
  ∃ lo hi,
    getDateRange gtfsData = Some (Time lo, Time hi)
    ∧ (∀ y, Time y ∈ lower_dates gtfsData → lo ≤ y)
    ∧ (∀ y, Time y ∈ upper_dates gtfsData → y ≤ hi).
Proof.
  intros Hparse Hne.
  destruct (valid_dates_times _ (all_parse_lower _ Hparse)) as [ls Hls].
  destruct (valid_dates_times _ (all_parse_upper _ Hparse)) as [us Hus].
  assert (ls ≠ []) as Hl.
  { intros ->. apply Hne. unfold lower_dates in Hls.
    apply app_eq_nil in Hls as [?%map_eq_nil ?%map_eq_nil]. done. }
  assert (us ≠ []) as Hu.
  { intros ->. apply Hne. unfold upper_dates in Hus.
    apply app_eq_nil in Hus as [?%map_eq_nil ?%map_eq_nil]. done. }
  destruct (lowest_of_times ls Hl) as (lo & Hlo & Hlo_in & Hlo_le).
  destruct (highest_of_times us Hu) as (hi & Hhi & Hhi_in & Hhi_le).
  exists lo, hi. split.
  { unfold getDateRange. rewrite range_scan, Hls, Hus, Hlo, Hhi.
    destruct (calendars gtfsData), (calendarDates gtfsData); simpl; try done.
    exfalso. by apply Hne. }
  rewrite Hls, Hus. setoid_rewrite elem_of_map_Time. done.
Qed.

(** What puts a service on one of the two lists of a date: a calendar row
    whose range holds the date, or an exception row for the date. *)
Lemma listed_service_cause gtfsData t dateString s :
  s ∈ active (resolved gtfsData (Time t) dateString)
  ∨ s ∈ excluded (resolved gtfsData (Time t) dateString) →
  (∃ c, c ∈ calendars gtfsData ∧ isDateInCalendarRange c (Time t) = true)
  ∨ (∃ cd, cd ∈ calendarDates gtfsData ∧ cd_date cd = dateString).
Proof.
  unfold resolved. cbn [active excluded].
  rewrite elem_of_app, !list_elem_of_In, !in_flat_map.
  intros [[(c & Hc & Hs)|(cd & Hcd & Hs)]|(c & Hc & Hs)].
  - apply list_elem_of_In in Hc. unfold row_outcome, decision_table in Hs.
    destruct (find _ _) as [e|] eqn:Hfind.
    + right. apply find_some in Hfind as [He Hm].
      apply exception_matches_spec in Hm as [_ Hm].
      exists e. by rewrite list_elem_of_In.
    + left. exists c. split; [done|]. unfold baseActive in Hs.
      by destruct (isDateInCalendarRange c (Time t)).
  - right. exists cd. split; [by apply list_elem_of_In|].
    unfold exception_only_entry in Hs. case_decide as Hd; [|done]. by destruct Hd.
  - left. apply excluded_entry_inv in Hs as [_ Hb]. exists c.
    split; [by apply list_elem_of_In|].
    unfold baseActive in Hb. by apply andb_true_iff in Hb as [? _].
Qed.

(** X9: the date selector offers every day of service.  In a dataset whose
    dates all parse and whose calendar rows have their dates in order, a day
    of the years 1 to 9999, not before the day of the clock, on which
    [getCalendarStatusForDate] lists a service as active or as excluded lies
    between the two ends of [getDateRange], and its midnight is one of the
    dates of [getAvailableDates]. *)
Theorem service_days_are_available (now t : Z) (gtfsData : GTFSData)
    (lists : StatusLists) (s : CalendarDayStatus) :
  all_parse gtfsData →
  ranges_in_order gtfsData →
  -719162 * msPerDay ≤ t < 2932897 * msPerDay →
  dayNumber now ≤ dayNumber t →
  getCalendarStatusForDate gtfsData (Time t) = Some lists →
  s ∈ active lists ∨ s ∈ excluded lists →
  (∃ lo hi, getDateRange gtfsData = Some (Time lo, Time hi)
            ∧ lo ≤ dayNumber t * msPerDay ≤ hi)
  ∧ Time (dayNumber t * msPerDay) ∈ getAvailableDates now gtfsData.
Proof.
  intros Hparse Hord Ht Hnow Hres Hs.
  destruct (formatGTFSDate_valid t) as [dateString Hf].
  rewrite (getCalendarStatusForDate_eq gtfsData _ _ Hf) in Hres.
  injection Hres as <-.
  apply listed_service_cause in Hs.
  assert (¬ (calendars gtfsData = [] ∧ calendarDates gtfsData = [])) as Hne.
  { intros [Hc Hcd]. rewrite Hc, Hcd in Hs.
    destruct Hs as [(? & ?%elem_of_nil & _)|(? & ?%elem_of_nil & _)]; done. }
  destruct (getDateRange_extremes _ Hparse Hne) as (lo & hi & Hr & Hlo & Hhi).
  assert (lo ≤ dayNumber t * msPerDay ≤ hi) as Hin.
  { destruct Hs as [(c & Hc & Hrange)|(cd & Hcd & Hdate)].
    - unfold ranges_in_order in Hord. rewrite Forall_forall in Hord.
      specialize (Hord c Hc).
      destruct (parseGTFSDate (start_date c)) as [|st] eqn:Hst; [done|].
      destruct (parseGTFSDate (end_date c)) as [|en] eqn:Hen; [done|].
      simpl in Hord. apply Z.leb_le in Hord.
      apply (isDateInCalendarRange_ordered c st en t Hst Hen Hord) in Hrange.
      destruct (parseGTFSDate_midnight _ _ Hst) as [k ->].
      assert (lo ≤ k * msPerDay).
      { apply Hlo. unfold lower_dates. apply elem_of_app. left.
        apply list_elem_of_fmap. exists c. by rewrite Hst. }
      assert (en ≤ hi).
      { apply Hhi. unfold upper_dates. apply elem_of_app. left.
        apply list_elem_of_fmap. exists c. by rewrite Hen. }
      unfold dayNumber, msPerDay in *. Z.to_euclidean_division_equations. lia.
    - pose proof (parse_after_format_day t dateString Ht Hf) as Hp.
      rewrite <- Hdate in Hp.
      split; [apply Hlo|apply Hhi]; unfold lower_dates, upper_dates;
        apply elem_of_app; right; apply list_elem_of_fmap; exists cd;
        by rewrite Hp. }
  split; [by exists lo, hi|].
  rewrite getAvailableDates_days. unfold available_days. rewrite Hr.
  set (first := Z.max (dayNumber now * msPerDay) lo).
  assert (first ≤ dayNumber t * msPerDay) as Hfirst.
  { subst first. unfold msPerDay in *. lia. }
  destruct (Z.ltb_spec hi first); [lia|].
  apply list_elem_of_fmap. exists (dayNumber t). split; [done|].
  apply elem_of_seqZ.
  assert (dayNumber first ≤ dayNumber t ∧ dayNumber t ≤ dayNumber hi); [|lia].
  unfold dayNumber, msPerDay in *. Z.to_euclidean_division_equations. lia.
Qed.

Lemma service_days_are_available_witness :
  (∃ lo hi, getDateRange holiday_dataset = Some (Time lo, Time hi)
            ∧ lo ≤ dayNumber 1720094400000 * msPerDay ≤ hi)
  ∧ Time (dayNumber 1720094400000 * msPerDay)
    ∈ getAvailableDates 1719900000000 holiday_dataset.
Proof.
  eapply (service_days_are_available 1719900000000 1720094400000
            holiday_dataset).
  - unfold all_parse. vm_compute. repeat constructor; discriminate.
  - unfold ranges_in_order. repeat (constructor; [reflexivity|]). constructor.
  - unfold msPerDay. lia.
  - vm_compute. discriminate.
  - vm_compute. reflexivity.
  - left. apply list_elem_of_here.
Defined.

(** ** What the validator reports *)

Lemma occurrences_cons k x l :
  occurrences k (x :: l) = (if decide (x = k) then 1 else 0) + occurrences k l.
Proof.
  unfold occurrences. rewrite filter_cons. case_decide; simpl length; lia.
Qed.

Lemma occurrences_nonneg k l : 0 ≤ occurrences k l.
Proof. unfold occurrences. lia. Qed.

Lemma NoDup_occurrences l : NoDup l ↔ ∀ k, occurrences k l ≤ 1.
Proof.
  induction l as [|x l IH].
  - split; [|constructor]. intros _ k. unfold occurrences. simpl. lia.
  - rewrite NoDup_cons, IH. split.
    + intros [Hx Hl] k. rewrite occurrences_cons. case_decide as Hk.
      * subst. rewrite occurrences_absent by done. lia.
      * specialize (Hl k). lia.
    + intros H. split.
      * intros Hx. specialize (H x). rewrite occurrences_cons in H.
        rewrite decide_True in H by done.
        pose proof (occurrences_present x l Hx). lia.
      * intros k. specialize (H k). rewrite occurrences_cons in H.
        case_decide; lia.
Qed.

Lemma findDuplicates_nil_iff l : findDuplicates l = [] ↔ NoDup l.
Proof.
  rewrite NoDup_occurrences. split.
  - intros Hnil k. destruct (Z.le_gt_cases (occurrences k l) 1) as [|Hgt]; [done|].
    assert (k ∈ findDuplicates l) as Hin by (apply elem_of_findDuplicates; lia).
    rewrite Hnil in Hin. by apply elem_of_nil in Hin.
  - intros Hle. destruct (findDuplicates l) as [|k ks] eqn:Heq; [done|].
    assert (k ∈ findDuplicates l) as Hin by (rewrite Heq; by left).
    apply elem_of_findDuplicates in Hin. specialize (Hle k). lia.
Qed.

(** X10: [findDuplicates] returns the values that occur at least twice, each
    once, in the order of their first occurrence; it returns nothing exactly
    when no value is repeated. *)
Theorem findDuplicates_repeated_values (arr : list string) :
  findDuplicates arr
  = filter (λ k, 2 ≤ occurrences k arr) (first_encounters arr)
  ∧ NoDup (findDuplicates arr)
  ∧ (∀ k, k ∈ findDuplicates arr ↔ 2 ≤ occurrences k arr)
  ∧ (findDuplicates arr = [] ↔ NoDup arr)
  ∧ NoDup (first_encounters arr)
  ∧ (∀ k, k ∈ first_encounters arr ↔ k ∈ arr).
Proof.
  split; [apply findDuplicates_spec|]. split; [apply NoDup_findDuplicates|].
  split; [apply elem_of_findDuplicates|]. split; [apply findDuplicates_nil_iff|].
  split; [apply NoDup_first_encounters|]. intros k. apply elem_of_first_encounters.
Qed.

Lemma length_pos_findDuplicates l :
  (0 <? length (findDuplicates l))%nat = bool_decide (¬ NoDup l).
Proof.
  pose proof (findDuplicates_nil_iff l) as H.
  destruct (findDuplicates l); simpl.
  - rewrite bool_decide_false; [done|]. intros Hn. by apply Hn, H.
  - rewrite bool_decide_true; [done|]. intros Hnd. by apply H in Hnd.
Qed.

(** X11: [validateGTFSData] raises at most three issues, in the order trips,
    calendars, exceptions, one for each file that repeats a key; the data is
    valid exactly when no trip id, no service id of [calendar.txt] and no key
    of [calendar_dates.txt] is repeated. *)
Theorem validate_reports_repeated_keys (gtfsData : GTFSData) :
  map file (issues (validateGTFSData gtfsData))
  = issue_file_if (NoDup (map trip_id (trips gtfsData))) "trips.txt"
    ++ issue_file_if (NoDup (map service_id (calendars gtfsData))) "calendar.txt"
    ++ issue_file_if (NoDup (map calendarDateKey (calendarDates gtfsData)))
         "calendar_dates.txt"
  ∧ (isValid (validateGTFSData gtfsData) = true
     ↔ NoDup (map trip_id (trips gtfsData))
       ∧ NoDup (map service_id (calendars gtfsData))
       ∧ NoDup (map calendarDateKey (calendarDates gtfsData))).
Proof.
  assert (map file (issues (validateGTFSData gtfsData))
  = issue_file_if (NoDup (map trip_id (trips gtfsData))) "trips.txt"
    ++ issue_file_if (NoDup (map service_id (calendars gtfsData))) "calendar.txt"
    ++ issue_file_if (NoDup (map calendarDateKey (calendarDates gtfsData)))
         "calendar_dates.txt") as Hfiles.
  { unfold validateGTFSData, push_issue, issue_file_if. simpl.
    rewrite !length_pos_findDuplicates.
    repeat case_bool_decide; repeat case_decide; try done. }
  split; [exact Hfiles|].
  rewrite validate_isValid.
  split.
  - intros Hnil. rewrite Hnil in Hfiles. simpl in Hfiles.
    unfold issue_file_if in Hfiles.
    repeat case_decide; try done.
  - intros (H1 & H2 & H3). unfold issue_file_if in Hfiles.
    rewrite !decide_True in Hfiles by done. simpl in Hfiles.
    by apply map_eq_nil in Hfiles.
Qed.

Lemma NoDup_fmap_transfer {A B C} (f : A → B) (g : A → C) (l : list A) :
  (∀ a b, a ∈ l → b ∈ l → f a = f b → g a = g b) →
  NoDup (map g l) → NoDup (map f l).
Proof.
  induction l as [|x l IH]; intros Hfg; simpl; [constructor|].
  rewrite !NoDup_cons. intros [Hx Hl]. split.
  - intros (y & Hxy & Hy)%list_elem_of_fmap. apply Hx.
    apply list_elem_of_fmap. exists y. split; [|done].
    apply Hfg; [by left|by right|done].
  - apply IH; [|done]. intros a b Ha Hb. apply Hfg; by right.
Qed.

(** X12: when no date of [calendar_dates.txt] holds the separator [|], the
    data is valid exactly when the trip ids, the service ids of
    [calendar.txt] and the pairs of service id and date of
    [calendar_dates.txt] are without repetition. *)
Theorem validate_exception_pairs (gtfsData : GTFSData) :
  (∀ cd, cd ∈ calendarDates gtfsData → no_separator (cd_date cd) = true) →
  isValid (validateGTFSData gtfsData) = true
  ↔ NoDup (map trip_id (trips gtfsData))
    ∧ NoDup (map service_id (calendars gtfsData))
    ∧ NoDup (map (λ cd, (cd_service_id cd, cd_date cd)) (calendarDates gtfsData)).
Proof.
  intros Hsep.
  assert (NoDup (map calendarDateKey (calendarDates gtfsData))
          ↔ NoDup (map (λ cd, (cd_service_id cd, cd_date cd))
                       (calendarDates gtfsData))) as Hkeys.
  { split; apply NoDup_fmap_transfer; intros a b Ha Hb.
    - intros [= Hs Hd]. unfold calendarDateKey. by rewrite Hs, Hd.
    - intros Hk. apply calendarDateKey_injective in Hk as [-> ->]; auto. }
  rewrite <- Hkeys. rewrite validate_isValid.
  unfold validateGTFSData, push_issue. simpl.
  rewrite <- !findDuplicates_nil_iff.
  destruct (findDuplicates (map trip_id _)), (findDuplicates (map service_id _)),
    (findDuplicates (map calendarDateKey _)); simpl; split; try done;
    intros (? & ? & ?); done.
Qed.

Lemma validate_exception_pairs_witness :
  isValid (validateGTFSData holiday_dataset) = true
  ↔ NoDup (map trip_id (trips holiday_dataset))
    ∧ NoDup (map service_id (calendars holiday_dataset))
    ∧ NoDup (map (λ cd, (cd_service_id cd, cd_date cd))
                 (calendarDates holiday_dataset)).
Proof.
  apply (validate_exception_pairs holiday_dataset).
  apply Forall_forall. vm_compute. repeat constructor.
Defined.

(** ** The CSV reader *)

Lemma parseCSVLine_loop_result n :
  ∀ line result current inQuotes,
    (String.length line ≤ n)%nat →
    ∃ fields,
      parseCSVLine_loop line result current inQuotes = result ++ fields
      ∧ fields ≠ [].
Proof.
  induction n as [|n IH]; intros line result current inQuotes Hlen.
  - destruct line; [|simpl in Hlen; lia]. by exists [current].
  - destruct line as [|char rest]; [by exists [current]|].
    simpl in Hlen. cbn [parseCSVLine_loop].
    destruct (Ascii.eqb char quote_char).
    + destruct inQuotes, rest as [|next rest']; try (apply IH; simpl in *; lia).
      destruct (Ascii.eqb next quote_char); apply IH; simpl in *; lia.
    + destruct (Ascii.eqb char "," && negb inQuotes).
      * destruct (IH rest (result ++ [current]) EmptyString inQuotes ltac:(lia))
          as (fields & -> & _).
        exists (current :: fields). by rewrite <- app_assoc.
      * apply IH. lia.
Qed.

(** X13: [parseCSVLine] returns at least one field for every line, also for
    the empty one, so the test [values.length === 0] of [parseCSV] skips no
    line: every line after the first adds a row. *)
Theorem parseCSVLine_never_empty (line : string) :
  parseCSVLine line ≠ []
  ∧ ∀ headers results,
      parseCSV_step headers results line
      = results ++ [row_object headers (parseCSVLine line)].
Proof.
  destruct (parseCSVLine_loop_result _ line [] EmptyString false (le_n _))
    as (fields & Heq & Hne).
  unfold parseCSVLine. rewrite Heq. simpl. split; [done|].
  intros headers results. unfold parseCSV_step, parseCSVLine. rewrite Heq.
  simpl. by destruct fields.
Qed.

Lemma append_assoc_r (a b c : string) : ((a +:+ b) +:+ c = a +:+ (b +:+ c))%string.
Proof.
  induction a as [|x a IH]; [done|].
  change (String x ((a +:+ b) +:+ c) = String x (a +:+ (b +:+ c))).
  by rewrite IH.
Qed.

Lemma split_nonempty sep s : split sep s ≠ [].
Proof. destruct s; simpl; repeat case_match; done. Qed.

(** Without quotes, the loop cuts at every comma. *)
Lemma parseCSVLine_loop_plain line result current :
  no_quote line = true →
  parseCSVLine_loop line result current false
  = result ++ match split "," line with
              | part :: parts => (current +:+ part)%string :: parts
              | [] => [current]
              end.
Proof.
  revert result current. induction line as [|char rest IH];
    intros result current; cbn [no_quote parseCSVLine_loop split].
  - intros _. by rewrite append_empty_r.
  - intros [Hq%negb_true_iff Hrest]%andb_true_iff. rewrite Hq.
    destruct (Ascii.eqb char ","); cbn [andb negb].
    + rewrite IH by done. rewrite <- app_assoc. simpl.
      rewrite append_empty_r.
      pose proof (split_nonempty "," rest).
      by destruct (split "," rest).
    + rewrite IH by done.
      pose proof (split_nonempty "," rest).
      destruct (split "," rest); [done|].
      by rewrite append_assoc_r.
Qed.

(** X14: a line without a double quote is cut at every comma, as
    [line.split(',')] would. *)
Theorem parseCSVLine_without_quotes (line : string) :
  no_quote line = true → parseCSVLine line = split "," line.
Proof.
  intros Hq. unfold parseCSVLine.
  rewrite parseCSVLine_loop_plain by done. simpl.
  pose proof (split_nonempty "," line).
  by destruct (split "," line).
Qed.

Lemma parseCSVLine_without_quotes_witness :
  parseCSVLine "WEEKDAY,20240704,,2" = split "," "WEEKDAY,20240704,,2".
Proof. apply (parseCSVLine_without_quotes "WEEKDAY,20240704,,2"). reflexivity. Defined.

(** Inside quotes, the loop reads a field with its quotes doubled up to the
    closing quote, when a comma or the end of the line follows it. *)
Lemma parseCSVLine_loop_quoted field rest result current :
  match rest with
  | String c _ => Ascii.eqb c quote_char = false
  | EmptyString => True
  end →
  parseCSVLine_loop (double_quotes field +:+ String quote_char rest)
                    result current true
  = parseCSVLine_loop rest result (current +:+ field)%string false.
Proof.
  intros Hrest. revert current.
  induction field as [|c field IH]; intros current.
  - rewrite append_empty_r. change (double_quotes EmptyString +:+ String quote_char rest)
      with (String quote_char rest).
    cbn [parseCSVLine_loop]. rewrite Ascii.eqb_refl.
    destruct rest as [|next rest']; [done|]. by rewrite Hrest.
  - cbn [double_quotes]. destruct (Ascii.eqb c quote_char) eqn:Hc.
    + apply Ascii.eqb_eq in Hc as ->.
      change (parseCSVLine_loop
                (String quote_char (String quote_char
                   (double_quotes field +:+ String quote_char rest)))
                result current true
              = parseCSVLine_loop rest result
                  (current +:+ String quote_char field) false).
      cbn [parseCSVLine_loop]. rewrite Ascii.eqb_refl.
      rewrite IH, append_assoc_r. done.
    + change (parseCSVLine_loop
                (String c (double_quotes field +:+ String quote_char rest))
                result current true
              = parseCSVLine_loop rest result (current +:+ String c field) false).
      cbn [parseCSVLine_loop]. rewrite Hc. cbn [negb andb].
      rewrite andb_false_r, IH, append_assoc_r. done.
Qed.

Lemma parseCSVLine_loop_fields fields result :
  fields ≠ [] →
  parseCSVLine_loop (csv_line fields) result EmptyString false
  = result ++ fields.
Proof.
  revert result. induction fields as [|field fields IH]; [done|].
  intros result _. destruct fields as [|field' fields].
  - cbn [csv_line]. unfold csv_quote. cbn [parseCSVLine_loop].
    rewrite Ascii.eqb_refl. cbn [negb].
    by rewrite parseCSVLine_loop_quoted.
  - cbn [csv_line]. fold (csv_line (field' :: fields)). unfold csv_quote at 1.
    change (parseCSVLine_loop
              (String quote_char
                 ((double_quotes field +:+ String quote_char EmptyString)
                  +:+ String "," (csv_line (field' :: fields))))
              result EmptyString false = result ++ field :: field' :: fields).
    rewrite append_assoc_r.
    change (String quote_char EmptyString +:+ String "," (csv_line (field' :: fields)))
      with (String quote_char (String "," (csv_line (field' :: fields)))).
    cbn [parseCSVLine_loop]. rewrite Ascii.eqb_refl. cbn [negb].
    rewrite parseCSVLine_loop_quoted by done.
    cbn [parseCSVLine_loop].
    change (Ascii.eqb "," quote_char) with false. cbn [andb negb].
    change (Ascii.eqb "," ",") with true. cbn [andb].
    rewrite IH by done. by rewrite <- app_assoc.
Qed.

(** X15: when every field is written between double quotes with its own
    double quotes doubled, and the fields are joined by commas, [parseCSVLine]
    reads the fields back, whatever characters they hold. *)
Theorem parseCSVLine_reads_quoted_fields (fields : list string) :
  fields ≠ [] → parseCSVLine (csv_line fields) = fields.
Proof. intros Hne. unfold parseCSVLine. by rewrite parseCSVLine_loop_fields. Qed.

Lemma parseCSVLine_reads_quoted_fields_witness :
  parseCSVLine (csv_line ["R1"%string; "Main St, north"%string; EmptyString])
  = ["R1"%string; "Main St, north"%string; EmptyString].
Proof. apply parseCSVLine_reads_quoted_fields. discriminate. Defined.

Lemma parseCSV_loop headers others results :
  fold_left (parseCSV_step headers) others results
  = results ++ map (λ line, row_object headers (parseCSVLine line)) others.
Proof.
  revert results. induction others as [|line others IH]; intros results; simpl.
  - by rewrite app_nil_r.
  - rewrite IH. destruct (parseCSVLine_loop_result _ line [] EmptyString false
                            (le_n _)) as (fields & Heq & Hne).
    unfold parseCSV_step, parseCSVLine. rewrite Heq. simpl.
    destruct fields; [done|]. simpl. by rewrite <- app_assoc.
Qed.

(** X16: [parseCSV] gives no row for a text of fewer than two lines once
    trimmed; otherwise it gives one row for each line after the first, also
    for a blank one, read against the fields of the first line. *)
Theorem parseCSV_one_row_per_line (csvText : string) :
  let lines := splitLines (trim csvText) in
  ((length lines < 2)%nat → parseCSV csvText = [])
  ∧ (∀ first others,
       lines = first :: others → others ≠ [] →
       parseCSV csvText
       = map (λ line, row_object (parseCSVLine first) (parseCSVLine line))
             others)
  ∧ length (parseCSV csvText) = (length lines - 1)%nat.
Proof.
  intros lines. unfold parseCSV. fold lines. clearbody lines.
  destruct lines as [|first [|second others]].
  - split; [done|]. split; [done|]. done.
  - split; [done|]. split; [|done]. by intros ? ? [= <- <-].
  - change (length (first :: second :: others) <? 2)%nat with false.
    cbv iota. rewrite parseCSV_loop, app_nil_l.
    split; [simpl; lia|]. split.
    + by intros ? ? [= <- <-] _.
    + rewrite length_map. simpl. lia.
Qed.

Lemma set_cell_eq values obj i h :
  set_cell values obj (i, h)
  = if String.eqb (trim h) "__proto__" then obj
    else <[ trim h := cell values i ]> obj.
Proof. reflexivity. Qed.

Lemma set_cell_fold values entries (obj : gmap string string) k :
  match fold_left (set_cell values) entries obj !! k with
  | Some v =>
      (∃ i h, (i, h) ∈ entries ∧ trim h = k ∧ v = cell values i)
      ∨ obj !! k = Some v
  | None =>
      obj !! k = None
      ∧ ∀ i h, (i, h) ∈ entries → trim h = k → k = "__proto__"%string
  end.
Proof.
  revert obj. induction entries as [|[i h] entries IH]; intros obj.
  - simpl. destruct (obj !! k); [by right|]. split; [done|].
    intros ? ? Hin. by apply elem_of_nil in Hin.
  - cbn [fold_left]. specialize (IH (set_cell values obj (i, h))).
    rewrite set_cell_eq in *.
    destruct (String.eqb_spec (trim h) "__proto__") as [Hp|Hp].
    + destruct (fold_left _ entries obj !! k) as [v|].
      * destruct IH as [(j & h' & Hin & ? & ?)|?]; [left|by right].
        exists j, h'. split; [by right|done].
      * destruct IH as [Hobj Hall]. split; [done|].
        intros j h' [[= -> ->]|Hin]%elem_of_cons Hk; [congruence|eauto].
    + destruct (fold_left _ entries _ !! k) as [v|].
      * destruct IH as [(j & h' & Hin & ? & ?)|Hl].
        { left. exists j, h'. split; [by right|done]. }
        destruct (decide (trim h = k)) as [<-|Hne].
        -- rewrite lookup_insert_eq in Hl. simplify_eq.
           left. exists i, h. split; [by left|done].
        -- rewrite lookup_insert_ne in Hl by done. by right.
      * destruct IH as [Hobj Hall].
        destruct (decide (trim h = k)) as [<-|Hne];
          [by rewrite lookup_insert_eq in Hobj|].
        rewrite lookup_insert_ne in Hobj by done. split; [done|].
        intros j h' [[= -> ->]|Hin]%elem_of_cons Hk; [done|eauto].
Qed.

Lemma set_cell_fold_last values before i h after (obj : gmap string string) :
  trim h ≠ "__proto__"%string →
  (∀ j h', (j, h') ∈ after → trim h' ≠ trim h) →
  fold_left (set_cell values) (before ++ (i, h) :: after) obj !! trim h
  = Some (cell values i).
Proof.
  intros Hp Hafter. rewrite fold_left_app. cbn [fold_left].
  set (obj' := fold_left (set_cell values) before obj).
  assert (set_cell values obj' (i, h) !! trim h = Some (cell values i)) as Hset.
  { rewrite set_cell_eq.
    destruct (String.eqb_spec (trim h) "__proto__"); [done|].
    apply lookup_insert_eq. }
  revert Hset. generalize (set_cell values obj' (i, h)). clear obj'.
  induction after as [|[j h'] after IH]; intros m Hm; [done|].
  cbn [fold_left]. apply IH.
  - intros j0 h0 Hin0. apply (Hafter j0 h0). by right.
  - rewrite set_cell_eq.
    destruct (String.eqb_spec (trim h') "__proto__"); [done|].
    rewrite lookup_insert_ne; [done|]. apply (Hafter j h'). by left.
Qed.

(** X17: the row object that [parseCSV] builds.  Each of its keys is a
    trimmed header and its value is the trimmed field at the position of that
    header, or the empty text when the line has no such field; of two headers
    with the same trimmed name the later one gives the value; the only header
    left out is [__proto__]. *)
Theorem row_object_cells (headers values : list string) :
  (∀ k v, row_object headers values !! k = Some v →
     ∃ i h, headers !! i = Some h ∧ trim h = k ∧ v = cell values i)
  ∧ (∀ k, row_object headers values !! k = None →
       ∀ h, h ∈ headers → trim h = k → k = "__proto__"%string)
  ∧ (∀ i h,
       headers !! i = Some h →
       trim h ≠ "__proto__"%string →
       (∀ j h', headers !! j = Some h' → (i < j)%nat → trim h' ≠ trim h) →
       row_object headers values !! trim h = Some (cell values i)).
Proof.
  unfold row_object. split; [|split].
  - intros k v Hl.
    pose proof (set_cell_fold values (imap (λ i h, (i, h)) headers) ∅ k) as H.
    rewrite Hl in H. destruct H as [(i & h & Hin & ? & ?)|He];
      [|by rewrite lookup_empty in He].
    apply elem_of_lookup_imap in Hin as (i' & h' & [= -> ->] & Hh). eauto.
  - intros k Hl h Hh Hk.
    pose proof (set_cell_fold values (imap (λ i h, (i, h)) headers) ∅ k) as H.
    rewrite Hl in H. destruct H as [_ Hall].
    apply list_elem_of_lookup in Hh as [i Hi].
    apply (Hall i h); [|done]. apply elem_of_lookup_imap. eauto.
  - intros i h Hi Hp Hlast.
    pose proof (take_drop_middle headers i h Hi) as Hsplit.
    rewrite <- Hsplit. rewrite imap_app. cbn [imap].
    rewrite length_take_le by (apply lookup_lt_Some in Hi; lia).
    rewrite Nat.add_0_r.
    apply set_cell_fold_last; [done|].
    intros j h' (j' & h'' & [= -> ->] & Hj)%elem_of_lookup_imap.
    apply (Hlast (i + S j')%nat); [|lia].
    rewrite <- Hsplit.
    rewrite lookup_app_r by (rewrite length_take_le;
      [lia|apply lookup_lt_Some in Hi; lia]).
    rewrite length_take_le by (apply lookup_lt_Some in Hi; lia).
    replace (i + S j' - i)%nat with (S j') by lia. done.
Qed.

(** ** The groups of the display components *)

Lemma filter_partition {A} (p : A → bool) (l : list A) :
  List.filter p l ++ List.filter (λ x, negb (p x)) l ≡ₚ l.
Proof.
  induction l as [|x l IH]; simpl; [done|].
  destruct (p x); simpl.
  - by rewrite IH.
  - rewrite <- Permutation_middle. by rewrite IH.
Qed.

Lemma filter_all {A} (p : A → bool) (l : list A) :
  (∀ x, x ∈ l → p x = true) → List.filter p l = l.
Proof.
  induction l as [|x l IH]; intros H; simpl; [done|].
  rewrite H by by left. f_equal. apply IH. intros y Hy. apply H. by right.
Qed.

Lemma filter_none {A} (p : A → bool) (l : list A) :
  (∀ x, x ∈ l → p x = false) → List.filter p l = [].
Proof.
  induction l as [|x l IH]; intros H; simpl; [done|].
  rewrite H by by left. apply IH. intros y Hy. apply H. by right.
Qed.

(** X18: the three groups of [CalendarList].  The regular and the added
    entries make up the active list, which has no removed entry; the excluded
    list holds removed entries only; the base list holds regular entries
    only. *)
Theorem calendarList_groups (gtfsData : GTFSData) (t : Z) :
  ∃ lists,
    getCalendarStatusForDate gtfsData (Time t) = Some lists
    ∧ regularCalendars (active lists) ++ addedExceptions (active lists)
      ≡ₚ active lists
    ∧ removedExceptions (active lists) = []
    ∧ removedExceptions (excluded lists) = excluded lists
    ∧ regularCalendars (excluded lists) = []
    ∧ addedExceptions (excluded lists) = []
    ∧ regularCalendars (getBaseCalendarsForDate gtfsData (Time t))
      = getBaseCalendarsForDate gtfsData (Time t).
Proof.
  destruct (formatGTFSDate_valid t) as [dateString Hf].
  exists (resolved gtfsData (Time t) dateString).
  split; [by apply getCalendarStatusForDate_eq|].
  set (lists := resolved gtfsData (Time t) dateString).
  assert (∀ s, s ∈ active lists →
            isException s = false
            ∨ (isException s = true ∧ exceptionType s = Some added)) as Hact.
  { intros s. simpl. rewrite elem_of_app, !list_elem_of_In, !in_flat_map.
    intros [(c & _ & [[-> _]| ->]%active_entry_inv)
           | (cd & _ & ->%exception_only_entry_inv)]; auto. }
  assert (∀ s, s ∈ excluded lists →
            isException s = true ∧ exceptionType s = Some removed) as Hexc.
  { intros s. simpl. rewrite list_elem_of_In, in_flat_map.
    by intros (c & _ & [-> _]%excluded_entry_inv). }
  split; [|split; [|split; [|split; [|split]]]].
  - unfold addedExceptions, regularCalendars.
    rewrite <- (filter_partition (λ c, negb (isException c)) (active lists)) at 3.
    f_equiv.
    assert (List.filter (λ c, isException c && is_label added (exceptionType c))
                        (active lists)
            = List.filter (λ c, negb (negb (isException c))) (active lists))
      as ->; [|done].
    apply filter_ext_in. intros s Hs%list_elem_of_In.
    destruct (Hact s Hs) as [-> | [-> ->]]; done.
  - apply filter_none. intros s Hs.
    destruct (Hact s Hs) as [-> | [-> ->]]; done.
  - apply filter_all. intros s Hs. by destruct (Hexc s Hs) as [-> ->].
  - apply filter_none. intros s Hs. by destruct (Hexc s Hs) as [-> _].
  - apply filter_none. intros s Hs. by destruct (Hexc s Hs) as [-> ->].
  - apply filter_all. intros s. unfold getBaseCalendarsForDate.
    rewrite base_loop. simpl. by intros (c & -> & _)%list_elem_of_fmap.
Qed.

Lemma group_get_groups_of f ks x :
  group_get (groups_of f ks) x = if decide (x ∈ ks) then Some (f x) else None.
Proof.
  induction ks as [|k ks IH].
  - case_decide as H; [by apply elem_of_nil in H|done].
  - cbn [groups_of map group_get]. fold (groups_of f ks).
    destruct (String.eqb_spec k x) as [->|Hne].
    + by rewrite decide_True by by left.
    + rewrite IH. destruct (decide (x ∈ ks)) as [Hin|Hin].
      * by rewrite decide_True by by right.
      * rewrite decide_False; [done|].
        intros [->|?]%elem_of_cons; done.
Qed.

Lemma group_set_absent f ks x v :
  x ∉ ks → group_set (groups_of f ks) x v = groups_of f ks ++ [(x, v)].
Proof.
  induction ks as [|k ks IH]; intros Hx; simpl; [done|].
  apply not_elem_of_cons in Hx as [Hne Hx].
  destruct (String.eqb_spec k x) as [->|_]; [done|]. by rewrite IH.
Qed.

Lemma group_set_present f ks x v :
  x ∈ ks → NoDup ks →
  group_set (groups_of f ks) x v
  = groups_of (λ k, if decide (k = x) then v else f k) ks.
Proof.
  induction ks as [|k ks IH]; intros Hx Hnd; [by apply elem_of_nil in Hx|].
  apply NoDup_cons in Hnd as [Hk Hnd]. simpl.
  destruct (String.eqb_spec k x) as [->|Hne].
  - rewrite decide_True by done. f_equal. unfold groups_of.
    apply map_ext_in. intros k Hin%list_elem_of_In.
    rewrite decide_False; [done|]. by intros ->.
  - rewrite decide_False by done. f_equal. apply IH; [|done].
    by apply elem_of_cons in Hx as [->|Hx].
Qed.

Lemma trips_with_key_snoc trips twr k :
  trips_with_key (trips ++ [twr]) k
  = trips_with_key trips k ++ (if decide (routeKey twr = k) then [twr] else []).
Proof.
  unfold trips_with_key. rewrite filter_app, filter_cons, filter_nil.
  by case_decide.
Qed.

Lemma trips_with_key_absent trips k :
  k ∉ map routeKey trips → trips_with_key trips k = [].
Proof.
  intros Hk. unfold trips_with_key.
  destruct (filter _ trips) as [|y ys] eqn:Hf; [done|].
  assert (y ∈ filter (λ twr, routeKey twr = k) trips) as Hy
    by (rewrite Hf; by left).
  apply list_elem_of_filter in Hy as [<- Hy].
  exfalso. apply Hk. by apply list_elem_of_fmap_2.
Qed.

(** X19: [tripsByRoute] of [TripsList] groups the trips by their route key:
    one group for each key, in the order in which the keys first occur, each
    group holding the trips of that key in their order; no group is empty and
    no trip is lost. *)
Theorem tripsByRoute_groups (trips : list TripWithRoute) :
  tripsByRoute trips
  = map (λ k, (k, filter (λ twr, routeKey twr = k) trips))
        (first_encounters (map routeKey trips))
  ∧ NoDup (map fst (tripsByRoute trips))
  ∧ (∀ twr, twr ∈ trips →
       ∃ group, (routeKey twr, group) ∈ tripsByRoute trips ∧ twr ∈ group)
  ∧ (∀ k group, (k, group) ∈ tripsByRoute trips → group ≠ []).
Proof.
  assert (tripsByRoute trips
          = groups_of (trips_with_key trips)
                      (first_encounters (map routeKey trips))) as Heq.
  { induction trips as [|twr trips IH] using rev_ind; [done|].
    unfold tripsByRoute in *. rewrite fold_left_app. simpl. rewrite IH.
    rewrite group_get_groups_of, map_app. simpl.
    rewrite first_encounters_snoc.
    case_decide as Hx.
    - rewrite group_set_present by (done || apply NoDup_first_encounters).
      unfold groups_of. apply map_ext. intros k. f_equal.
      rewrite trips_with_key_snoc.
      destruct (decide (k = routeKey twr)) as [->|Hne].
      + by rewrite decide_True.
      + rewrite decide_False by done. by rewrite app_nil_r.
    - rewrite group_set_absent by done. unfold groups_of. rewrite map_app.
      simpl. rewrite elem_of_first_encounters in Hx. f_equal.
      + apply map_ext_in. intros k Hk%list_elem_of_In. f_equal.
        rewrite trips_with_key_snoc, decide_False; [by rewrite app_nil_r|].
        intros <-. apply Hx. by apply elem_of_first_encounters.
      + rewrite trips_with_key_snoc, trips_with_key_absent by done.
        by rewrite decide_True. }
  split; [exact Heq|]. rewrite Heq. unfold groups_of. split; [|split].
  - rewrite map_map. simpl. rewrite map_id. apply NoDup_first_encounters.
  - intros twr Htwr. exists (trips_with_key trips (routeKey twr)). split.
    + apply (list_elem_of_fmap_2 (λ k, (k, trips_with_key trips k))).
      apply elem_of_first_encounters. by apply list_elem_of_fmap_2.
    + by apply list_elem_of_filter.
  - intros k group (k' & [= -> ->] & Hk)%list_elem_of_fmap.
    apply elem_of_first_encounters, list_elem_of_fmap in Hk as (twr & -> & Htwr).
    intros Hnil.
    assert (twr ∈ trips_with_key trips (routeKey twr)) as Hin
      by by apply list_elem_of_filter.
    rewrite Hnil in Hin. by apply elem_of_nil in Hin.
Qed.
